(** * Glyph RPC over two pipes: a model of tools/remote_demo.cpp

    The tool runs two roles.  The rasterizer role ([gpu]) replays a picture
    and asks the renderer role, through [RemoteScalerContextFIFO], for font
    metrics, glyph metrics, glyph images and glyph paths.  The renderer role
    ([renderer]) serves these requests from one loop.  Both ends share the
    class [Op], which travels over the pipe as raw memory.

    The model keeps the program at the level it is written: buffers are byte
    arrays, [Op] is a window of the buffer whose fields are read and written
    at their offsets, and [read], [write] and [close] are calls to a kernel
    whose answers the program does not control.

    Part I is the model, Part II the facts about it, Part III the
    properties of the specification, Part IV properties of the code the
    specification does not speak of. *)

From Stdlib Require Import ZArith List Lia Bool.
From coqutil Require Import Byte Word.LittleEndianList.
Import ListNotations.
Local Open Scope Z_scope.

(** * Part I: the model *)

(** ** Byte buffers *)

(** A buffer is the content of a [uint8_t] array, by index.  The array has
    no length of its own here: the code never checks one (see the two
    "check for buffer overflow" notes in [renderer]), so capacity is stated
    where it matters, against [kBufferSize]. *)
Module Buf.

Definition t := Z -> byte.

Definition zero : t := fun _ => Byte.x00.

(** The [n] bytes at [off .. off+n-1]. *)
Definition load (b : t) (off n : Z) : list byte :=
  map (fun i => b (off + Z.of_nat i)) (seq 0 (Z.to_nat n)).

(** [memcpy(buf + off, d, length d)]. *)
Definition store (b : t) (off : Z) (d : list byte) : t :=
  fun i =>
    if (off <=? i) && (i <? off + Z.of_nat (length d))
    then nth (Z.to_nat (i - off)) d Byte.x00
    else b i.

End Buf.

(** ** Integers of the C types the code uses *)

Definition wrap32 (z : Z) : Z := z mod 2 ^ 32.
Definition wrap64 (z : Z) : Z := z mod 2 ^ 64.

(** The value of a 32-bit pattern read as [int32_t]. *)
Definition signed32 (z : Z) : Z :=
  if wrap32 z <? 2 ^ 31 then wrap32 z else wrap32 z - 2 ^ 32.

(** Length of a byte string, as the integer the code computes with. *)
Definition len (d : list byte) : Z := Z.of_nat (length d).

(** At most [n] bytes of [d]: what a call asked to move [n] bytes can take
    from the [d] that is there. *)
Definition clamp (n : Z) (d : list byte) : list byte :=
  if len d <=? n then d else firstn (Z.to_nat n) d.

(** The [n] bytes of [l] from offset [off]. *)
Definition slice (l : list byte) (off n : Z) : list byte :=
  firstn (Z.to_nat n) (skipn (Z.to_nat off) l).

(** ** The buffer and the layout of [Op] *)

Definition kPageSize : Z := 4096.

(** [uint8_t fBuffer[1024 * kPageSize]] in the client and
    [kBufferSize = 1024 * kPageSize] in [renderer]. *)
Definition kBufferSize : Z := 1024 * kPageSize.

(** [Op] starts with [int32_t op] and [SkFontID typeface_id] (a [uint32_t]);
    the anonymous union follows, aligned for its pointer and [size_t]
    members, and [descriptor] comes last.  The target is little-endian with
    64-bit pointers and [size_t] (the tool needs [fork] and [pipe]). *)
Definition offsetof_op : Z := 0.
Definition offsetof_typeface_id : Z := 4.
Definition offsetof_union : Z := 8.

(** The members of the union all start where the union starts; in the
    anonymous struct [glyphId] ([SkGlyphID], a [uint16_t]) is first and
    [pathSize] ([size_t]) follows at the next multiple of eight. *)
Definition offsetof_fontMetrics : Z := offsetof_union.
Definition offsetof_glyph : Z := offsetof_union.
Definition offsetof_glyphId : Z := offsetof_union.
Definition offsetof_pathSize : Z := offsetof_union + 8.

(** [SkPaint::FontMetrics], [SkGlyph] and [SkScalerContextRecDescriptor]
    are declared in headers outside this file.  Their sizes, and the part
    of [SkGlyph] the code touches, are the parameters of the model; the
    laws say what any C++ compiler guarantees for them (a union holds each
    of its members, members of a class do not overlap, [Op] fits the buffer
    it is constructed in) and that [fImage] is a member of [SkGlyph] of its
    own, so that assigning it leaves the glyph's geometry alone. *)
Class ABI := {
  sizeof_FontMetrics : Z;
  sizeof_SkGlyph : Z;
  sizeof_union : Z;
  offsetof_descriptor : Z;
  sizeof_Descriptor : Z;
  sizeof_Op : Z;
  (** [SkGlyph::rowBytes()], an [unsigned], on the bytes of a glyph *)
  rowBytes : list byte -> Z;
  (** [SkGlyph::fHeight], a [uint16_t] *)
  fHeight : list byte -> Z;
  (** the bytes of a glyph after [glyph.fImage = p] *)
  set_fImage : Z -> list byte -> list byte;

  FontMetrics_in_union : 0 <= sizeof_FontMetrics <= sizeof_union;
  SkGlyph_in_union : 0 <= sizeof_SkGlyph <= sizeof_union;
  path_in_union : 16 <= sizeof_union;
  descriptor_after_union : offsetof_union + sizeof_union <= offsetof_descriptor;
  descriptor_in_Op :
    0 <= sizeof_Descriptor /\ offsetof_descriptor + sizeof_Descriptor <= sizeof_Op;
  Op_in_buffer : sizeof_Op <= kBufferSize;
  rowBytes_range : forall g, 0 <= rowBytes g < 2 ^ 32;
  fHeight_range : forall g, 0 <= fHeight g < 2 ^ 16;
  set_fImage_size :
    forall p g, len g = sizeof_SkGlyph -> len (set_fImage p g) = sizeof_SkGlyph;
  rowBytes_set_fImage :
    forall p g, len g = sizeof_SkGlyph -> rowBytes (set_fImage p g) = rowBytes g;
  fHeight_set_fImage :
    forall p g, len g = sizeof_SkGlyph -> fHeight (set_fImage p g) = fHeight g
}.

(** [glyph.rowBytes() * glyph.fHeight]: an [unsigned] times a [uint16_t],
    computed in [unsigned]. *)
Definition imageSize `{ABI} (g : list byte) : Z := wrap32 (rowBytes g * fHeight g).

(** The fields of the [Op] at the start of a buffer, as the code reads
    them through [Op* op]. *)
Module Op.
Section Fields.
Context `{ABI}.

Definition op (b : Buf.t) : Z := signed32 (le_combine (Buf.load b offsetof_op 4)).
Definition typeface_id (b : Buf.t) : Z := le_combine (Buf.load b offsetof_typeface_id 4).
Definition fontMetrics (b : Buf.t) : list byte :=
  Buf.load b offsetof_fontMetrics sizeof_FontMetrics.
Definition glyph (b : Buf.t) : list byte := Buf.load b offsetof_glyph sizeof_SkGlyph.
Definition glyphId (b : Buf.t) : Z := le_combine (Buf.load b offsetof_glyphId 2).
Definition pathSize (b : Buf.t) : Z := le_combine (Buf.load b offsetof_pathSize 8).
Definition descriptor (b : Buf.t) : list byte :=
  Buf.load b offsetof_descriptor sizeof_Descriptor.

End Fields.
End Op.

(** ** The glyph data the renderer owns *)

(** What [rc.generateScalerContext(descriptor, typeface_id)] hands back: the
    four operations of a scaler context.  Each is given by the bytes it
    leaves in the object or region it is asked to fill:
    [getFontMetrics(&m)] fills [m]; [getMetrics(&g)] fills [g], which holds
    the glyph id on entry; [getImage(g)] writes pixels at [g.fImage]; and
    [getPath(id, &path)] followed by [path.writeToMemory(p)] writes the
    encoded outline at [p]. *)
Record ScalerContext `{ABI} := {
  getFontMetrics : list byte;
  getMetrics : list byte -> list byte;
  getImage : list byte -> list byte;
  getPath : Z -> list byte;
  getFontMetrics_size : len getFontMetrics = sizeof_FontMetrics;
  getMetrics_size : forall g, len (getMetrics g) = sizeof_SkGlyph
}.

(** [SkRemoteGlyphCacheRenderer::generateScalerContext]: a context for the
    bytes of a descriptor and a font id. *)
Definition Provider `{ABI} := list byte -> Z -> ScalerContext.

(** ** Calls to the kernel *)

(** One entry per call, in program order, with what the call returned. *)
Inductive event :=
| EvWrite (fd count result : Z)
| EvRead (fd count result : Z)
| EvClose (fd : Z).

(** The other side of the file descriptors.  [k_write] is offered the
    bytes of the buffer and answers with the [ssize_t] that [write]
    returns.  [k_read] answers [None] for a failed [read] (it returns -1)
    and [Some d] for a [read] that returns [length d] after placing [d] in
    the buffer; [Some []] is end of stream. *)
Record Kernel (K : Type) := {
  k_write : K -> Z -> list byte -> Z * K;
  k_read : K -> Z -> Z -> option (list byte) * K
}.
Arguments k_write {K}.
Arguments k_read {K}.

(** A role: its buffer, the kernel it talks to, and the calls made so far. *)
Record proc (K : Type) := {
  buf : Buf.t;
  kst : K;
  trace : list event
}.
Arguments buf {K}.
Arguments kst {K}.
Arguments trace {K}.
Arguments Build_proc {K}.

Definition M (K A : Type) : Type := proc K -> A * proc K.

Definition ret {K A} (a : A) : M K A := fun s => (a, s).
Definition bind {K A B} (m : M K A) (f : A -> M K B) : M K B :=
  fun s => let (a, s') := m s in f a s'.

Declare Scope io_scope.
Delimit Scope io_scope with io.
Notation "x <- m ;; k" := (bind m (fun x => k))
  (at level 61, m at next level, right associativity) : io_scope.
Notation "m ;; k" := (bind m (fun _ => k))
  (at level 61, right associativity) : io_scope.
Local Open Scope io_scope.

Section Calls.
Context {K : Type} (kernel : Kernel K).

(** [memcpy(buffer + off, d, length d)] and assignments to fields. *)
Definition poke (off : Z) (d : list byte) : M K unit :=
  fun s => (tt, Build_proc (Buf.store (buf s) off d) (kst s) (trace s)).

(** The [n] bytes at [buffer + off]. *)
Definition peek (off n : Z) : M K (list byte) :=
  fun s => (Buf.load (buf s) off n, s).

(** [write(fd, buffer, n)]. *)
Definition sys_write (fd n : Z) : M K Z :=
  fun s =>
    let (r, k') := k_write kernel (kst s) fd (Buf.load (buf s) 0 n) in
    (r, Build_proc (buf s) k' (trace s ++ [EvWrite fd n r])).

(** [write(fd, p, length d)] for bytes [d] that are not in the buffer of
    the role. *)
Definition sys_write_data (fd : Z) (d : list byte) : M K Z :=
  fun s =>
    let (r, k') := k_write kernel (kst s) fd d in
    (r, Build_proc (buf s) k' (trace s ++ [EvWrite fd (len d) r])).

(** [read(fd, buffer, n)]. *)
Definition sys_read (fd n : Z) : M K Z :=
  fun s =>
    let (r, k') := k_read kernel (kst s) fd n in
    match r with
    | None => (-1, Build_proc (buf s) k' (trace s ++ [EvRead fd n (-1)]))
    | Some d =>
        let d' := clamp n d in
        (len d', Build_proc (Buf.store (buf s) 0 d') k'
                            (trace s ++ [EvRead fd n (len d')]))
    end.

(** [close(fd)]. *)
Definition sys_close (fd : Z) : M K unit :=
  fun s => (tt, Build_proc (buf s) (kst s) (trace s ++ [EvClose fd])).

(** [read(fd, buffer + off, n)]. *)
Definition sys_read_at (fd off n : Z) : M K Z :=
  fun s =>
    let (r, k') := k_read kernel (kst s) fd n in
    match r with
    | None => (-1, Build_proc (buf s) k' (trace s ++ [EvRead fd n (-1)]))
    | Some d =>
        let d' := clamp n d in
        (len d', Build_proc (Buf.store (buf s) off d') k'
                            (trace s ++ [EvRead fd n (len d')]))
    end.

(** [read(fd, &x, n)] for an object [x] outside the buffer that holds the
    bytes [old]: the result of the call and the bytes of [x] after it. *)
Definition sys_read_into (fd n : Z) (old : list byte) : M K (Z * list byte) :=
  fun s =>
    let (r, k') := k_read kernel (kst s) fd n in
    match r with
    | None => ((-1, old), Build_proc (buf s) k' (trace s ++ [EvRead fd n (-1)]))
    | Some d =>
        let d' := clamp n d in
        ((len d', d' ++ skipn (length d') old),
         Build_proc (buf s) k' (trace s ++ [EvRead fd n (len d')]))
    end.

End Calls.

(** ** The client: [RemoteScalerContextFIFO] *)

Section Client.
Context `{ABI} {K : Type} (kernel : Kernel K).
(** [fReadFd] and [fWriteFd]; [fBuffer] is the buffer of the role. *)
Variables fReadFd fWriteFd : Z.

(** [createOp]: [new (fBuffer) Op(rec)] runs the constructor, which
    initialises [descriptor] from [rec] and nothing else; then [op] and
    [typeface_id] are assigned.  [rec] is given by the bytes of the
    descriptor built from it, [fontID] is [tf.fontID()]. *)
Definition createOp (opID fontID : Z) (rec : list byte) : M K unit :=
  poke offsetof_descriptor rec ;;
  poke offsetof_op (le_split 4 opID) ;;
  poke offsetof_typeface_id (le_split 4 fontID).

(** The result is what [memcpy] leaves in [*metrics]. *)
Definition generateFontMetrics (fontID : Z) (rec : list byte) : M K (list byte) :=
  createOp 0 fontID rec ;;
  _ <- sys_write kernel fWriteFd sizeof_Op ;;
  _ <- sys_read kernel fReadFd kBufferSize ;;
  peek offsetof_fontMetrics sizeof_FontMetrics.

(** The result is what [memcpy] leaves in [*glyph]. *)
Definition generateMetrics (fontID : Z) (rec glyph : list byte) : M K (list byte) :=
  createOp 1 fontID rec ;;
  poke offsetof_glyph glyph ;;
  _ <- sys_write kernel fWriteFd sizeof_Op ;;
  _ <- sys_read kernel fReadFd kBufferSize ;;
  peek offsetof_glyph sizeof_SkGlyph.

(** The result is what [memcpy] copies to [glyph.fImage]; the count is
    computed from the caller's [glyph]. *)
Definition generateImage (fontID : Z) (rec glyph : list byte) : M K (list byte) :=
  createOp 2 fontID rec ;;
  poke offsetof_glyph glyph ;;
  _ <- sys_write kernel fWriteFd sizeof_Op ;;
  _ <- sys_read kernel fReadFd kBufferSize ;;
  peek sizeof_Op (imageSize glyph).

(** The result is the region handed to [path->readFromMemory]; its
    length is [op->pathSize] as found in the buffer after the [read]. *)
Definition generatePath (fontID : Z) (rec : list byte) (glyph : Z) : M K (list byte) :=
  createOp 3 fontID rec ;;
  poke offsetof_glyphId (le_split 2 glyph) ;;
  _ <- sys_write kernel fWriteFd sizeof_Op ;;
  _ <- sys_read kernel fReadFd kBufferSize ;;
  pathSize <- peek offsetof_pathSize 8 ;;
  peek sizeof_Op (le_combine pathSize).

End Client.

(** The buffer after [createOp opID fontID rec]. *)
Definition request `{ABI} (b : Buf.t) (opID fontID : Z) (rec : list byte) : Buf.t :=
  Buf.store
    (Buf.store (Buf.store b offsetof_descriptor rec) offsetof_op (le_split 4 opID))
    offsetof_typeface_id (le_split 4 fontID).

(** ** The server: [renderer] *)

(** [SkASSERT(cond)] comes from a header outside this file.  It is the
    assertion macro of the library: in a debug build it aborts when [cond]
    is false, in a release build it expands to nothing.  The result says
    whether the program aborts. *)
Definition SkASSERT (debug cond : bool) : bool := debug && negb cond.

(** How the loop over the requests stands after some rounds. *)
Inductive op_exit :=
| OpBreak      (* left through [break] *)
| OpAbort      (* a failed assertion ended the process *)
| OpSpinning.  (* still inside *)

(** How the loop that sends the picture stands after some rounds. *)
Inductive send_exit :=
| SendDone      (* [writeSoFar < picSize] became false *)
| SendReturn1   (* left through [return 1] *)
| SendSpinning. (* still inside *)

(** How a function stands. *)
Inductive status :=
| Returned (code : Z)
| Aborted
| Running.

Section Server.
Context `{ABI} {K : Type} (kernel : Kernel K).
(** whether assertions are compiled in *)
Variable debug : bool.
(** [SkRemoteGlyphCacheRenderer rc] *)
Variable rc : Provider.
(** the address [glyphBuffer.get()] *)
Variable glyphBuffer : Z.
Variables readFd writeFd : Z.

(** [rc.generateScalerContext(op->descriptor, op->typeface_id)]. *)
Definition context_of (b : Buf.t) : ScalerContext :=
  rc (Op.descriptor b) (Op.typeface_id b).

(** [op->glyph] after [op->glyph.fImage = &glyphBuffer[sizeof(Op)]]. *)
Definition image_glyph (b : Buf.t) : list byte :=
  set_fImage (glyphBuffer + sizeof_Op) (Op.glyph b).

(** The body of the loop between [read] and [write]: from the buffer
    that holds the request to the buffer that holds the response and
    [writeSize]; [None] when an assertion aborts. *)
Definition dispatch (b : Buf.t) : option (Buf.t * Z) :=
  let writeSize := sizeof_Op in
  let sc := context_of b in
  match Op.op b with
  | 0 =>
      (* sc->getFontMetrics(&op->fontMetrics) *)
      Some (Buf.store b offsetof_fontMetrics (getFontMetrics sc), writeSize)
  | 1 =>
      (* sc->getMetrics(&op->glyph) *)
      Some (Buf.store b offsetof_glyph (getMetrics sc (Op.glyph b)), writeSize)
  | 2 =>
      (* TODO: check for buffer overflow. *)
      (* op->glyph.fImage = &glyphBuffer[sizeof(Op)] *)
      let b1 := Buf.store b offsetof_glyph (image_glyph b) in
      (* sc->getImage(op->glyph) *)
      let b2 := Buf.store b1 sizeof_Op (getImage sc (Op.glyph b1)) in
      (* writeSize += op->glyph.rowBytes() * op->glyph.fHeight *)
      Some (b2, wrap64 (writeSize + imageSize (Op.glyph b2)))
  | 3 =>
      (* TODO: check for buffer overflow. *)
      (* sc->getPath(op->glyphId, &path) *)
      let path := getPath sc (Op.glyphId b) in
      (* op->pathSize = path.writeToMemory(&glyphBuffer[sizeof(Op)]) *)
      let b1 := Buf.store b sizeof_Op path in
      let b2 := Buf.store b1 offsetof_pathSize (le_split 8 (len path)) in
      (* writeSize += op->pathSize *)
      Some (b2, wrap64 (writeSize + Op.pathSize b2))
  | _ =>
      (* SkASSERT("Bad op"): the condition is a string literal, a
         pointer that is not null *)
      if SkASSERT debug true then None else Some (b, writeSize)
  end.

(** [dispatch] on the buffer of the role. *)
Definition run_dispatch : M K (option Z) :=
  fun s =>
    match dispatch (buf s) with
    | None => (None, s)
    | Some (b', writeSize) => (Some writeSize, Build_proc b' (kst s) (trace s))
    end.

(** [while (true) { ... }], at most [fuel] times round. *)
Fixpoint op_loop (fuel : nat) : M K op_exit :=
  match fuel with
  | O => ret OpSpinning
  | S fuel' =>
      size <- sys_read kernel readFd sizeof_Op ;;
      if size <=? 0 then ret OpBreak
      else
        r <- run_dispatch ;;
        match r with
        | None => ret OpAbort
        | Some writeSize =>
            _ <- sys_write kernel writeFd writeSize ;;
            op_loop fuel'
        end
  end.

(** The end of [renderer], from [glyphBuffer] on: the loop, then the
    two [close] calls and [return 0]. *)
Definition serve_ops (fuel : nat) : M K status :=
  e <- op_loop fuel ;;
  match e with
  | OpBreak =>
      sys_close readFd ;;
      sys_close writeFd ;;
      ret (Returned 0)
  | OpAbort => ret Aborted
  | OpSpinning => ret Running
  end.

(** [while (writeSoFar < picSize) { ... }] over the serialized picture. *)
Fixpoint send_loop (fuel : nat) (pic : list byte) (writeSoFar : Z) : M K send_exit :=
  if writeSoFar <? len pic then
    match fuel with
    | O => ret SendSpinning
    | S fuel' =>
        writeSize <- sys_write_data kernel writeFd (skipn (Z.to_nat writeSoFar) pic) ;;
        if writeSize <=? 0 then ret SendReturn1
        else send_loop fuel' pic (writeSoFar + writeSize)
    end
  else ret SendDone.

(** [renderer] from [write(writeFd, &picSize, sizeof(picSize))] on, for
    the serialized picture [pic] ([toGpu] is the constant [true]). *)
Definition renderer (fuel : nat) (pic : list byte) : M K status :=
  _ <- sys_write_data kernel writeFd (le_split 8 (len pic)) ;;
  e <- send_loop fuel pic 0 ;;
  match e with
  | SendDone => serve_ops fuel
  | SendReturn1 => ret (Returned 1)
  | SendSpinning => ret Running
  end.

End Server.

(** ** The parent process *)

Section Main.
Context `{ABI} {K : Type} (kernel : Kernel K).
Variables (debug : bool) (rc : Provider) (glyphBuffer : Z).
(** [render_to_gpu[kRead]], [render_to_gpu[kWrite]], [gpu_to_render[kRead]]
    and [gpu_to_render[kWrite]], as [pipe] returned them *)
Variables r2g_read r2g_write g2r_read g2r_write : Z.

(** [start_render] returns nothing: what [renderer] returns is dropped.
    Here [Returned 0] only says that the function came back. *)
Definition start_render (fuel : nat) (pic : list byte) : M K status :=
  sys_close r2g_read ;;
  sys_close g2r_write ;;
  st <- renderer kernel debug rc glyphBuffer g2r_read r2g_write fuel pic ;;
  match st with
  | Returned _ => ret (Returned 0)
  | other => ret other
  end.

(** [main] in the parent, after the two [pipe] calls and [fork]
    ([useProcess] is the constant [true]): [start_render], [waitpid],
    [return 0]. *)
Definition main_parent (fuel : nat) (pic : list byte) : M K status :=
  st <- start_render fuel pic ;;
  match st with
  | Returned _ => ret (Returned 0)
  | other => ret other
  end.

End Main.

(** ** The rasterizer: [gpu] *)

(** [kBufferSize = 10 * 1024 * kPageSize] in [gpu]: the size of
    [picBuffer]. *)
Definition kPicBufferSize : Z := 10 * 1024 * kPageSize.

(** How the loop that receives the picture stands after some rounds. *)
Inductive recv_exit :=
| RecvDone      (* [readSoFar < picSize] became false *)
| RecvReturn    (* [read] returned 0: [return] *)
| RecvErr       (* [read] failed: [err(1, ...)] *)
| RecvSpinning. (* still inside *)

(** How [gpu] stands. *)
Inductive gpu_status :=
| GpuDone              (* drew the picture, closed, returned *)
| GpuEarly             (* returned from inside the loop *)
| GpuExit (code : Z)   (* [err] ended the process with this status *)
| GpuFault             (* [final_draw] did not come back *)
| GpuRunning.

Section Gpu.
Context `{ABI} {K : Type} (kernel : Kernel K).
Variables readFd writeFd : Z.
(** What [final_draw] calls is Skia's and outside this file.
    [SkPicture::MakeFromData(picData, picSize, procs)] gives a picture, or
    a null pointer when the bytes are not one. *)
Context {Picture : Type}.
Variable MakeFromData : list byte -> M K (option Picture).
(** [final_draw] from [pic->cullRect()] on, for a picture that is there:
    the surface, the picture made a second time from the same bytes, the
    forty [drawPicture] calls, which call the operations of
    [RemoteScalerContextFIFO] as they meet glyphs, and the file.  The
    result is [false] when this does not come back. *)
Variable replay : Picture -> list byte -> M K bool.
(** the [fBuffer] of the [RemoteScalerContextFIFO] that [gpu] makes *)
Variable fBuffer : Buf.t.

(** [final_draw]: the result of [MakeFromData] is used unchecked, so with
    no picture [pic->cullRect()] goes through a null pointer and the
    process goes no further; the result is [true] when [final_draw]
    returns. *)
Definition final_draw (picData : list byte) : M K bool :=
  pic <- MakeFromData picData ;;
  match pic with
  | None => ret false
  | Some p => replay p picData
  end.

(** [while (readSoFar < picSize) { ... }]; the buffer of the role is
    [picBuffer]. *)
Fixpoint recv_loop (fuel : nat) (picSize readSoFar : Z) : M K recv_exit :=
  if readSoFar <? picSize then
    match fuel with
    | O => ret RecvSpinning
    | S fuel' =>
        readSize <- sys_read_at kernel readFd readSoFar
                      (wrap64 (kPicBufferSize - readSoFar)) ;;
        if readSize <=? 0 then
          if readSize =? 0 then ret RecvReturn else ret RecvErr
        else recv_loop fuel' picSize (wrap64 (readSoFar + readSize))
    end
  else ret RecvDone.

(** From here on the buffer of the role is the [fBuffer] of the client. *)
Definition enter_fBuffer : M K unit :=
  fun s => (tt, Build_proc fBuffer (kst s) (trace s)).

(** [gpu]: [picSize] starts as 0 and is read from the pipe, the picture
    follows, then [final_draw] and, when it returns, the two [close]
    calls. *)
Definition gpu (fuel : nat) : M K gpu_status :=
  hdr <- sys_read_into kernel readFd 8 (le_split 8 0) ;;
  let picSize := le_combine (snd hdr) in
  e <- recv_loop fuel picSize 0 ;;
  match e with
  | RecvDone =>
      pic <- peek 0 picSize ;;
      enter_fBuffer ;;
      back <- final_draw pic ;;
      if back then
        sys_close writeFd ;;
        sys_close readFd ;;
        ret GpuDone
      else ret GpuFault
  | RecvReturn => ret GpuEarly
  | RecvErr => ret (GpuExit 1)
  | RecvSpinning => ret GpuRunning
  end.

End Gpu.

(** ** The two roles joined by two pipes *)

(** A pipe is the bytes written to it and not yet read.  A [read] of [n]
    bytes takes the first [n], or all there is. *)
Definition pipe_read (q : list byte) (n : Z) : list byte * list byte :=
  let d := clamp n q in (d, skipn (length d) q).

(** What a pipe of the tool holds: [pipe] makes it of 16 pages, 65536
    bytes.  The pipes of this model hold whatever is written to them.  The
    two agree on a message of at most [pipe_capacity] bytes written to an
    empty pipe: it is in the pipe whole when the one [read] of the peer
    runs.  A longer message reaches the peer torn, and what the [read]
    left stays in the pipe for the next one. *)
Definition pipe_capacity : Z := 16 * kPageSize.

(** [gpu_to_render] carries requests, [render_to_gpu] responses. *)
Record pipes := {
  gpu_to_render : list byte;
  render_to_gpu : list byte
}.

(** The kernel as the renderer sees it: it reads requests and writes
    responses, and every [write] is taken whole, as a pipe takes a
    response of at most [pipe_capacity] bytes. *)
Definition renderer_end : Kernel pipes := {|
  k_read p fd n :=
    let (d, rest) := pipe_read (gpu_to_render p) n in
    (Some d, {| gpu_to_render := rest; render_to_gpu := render_to_gpu p |});
  k_write p fd d :=
    (len d, {| gpu_to_render := gpu_to_render p; render_to_gpu := render_to_gpu p ++ d |})
|}.

Section Exchange.
Context `{ABI}.
Variables (debug : bool) (rc : Provider) (glyphBuffer : Z).
(** the descriptors of the renderer *)
Variables readFd writeFd : Z.

(** The kernel as the client sees it.  The renderer sits in its loop, in
    the state it was left in; a [write] of the client puts the bytes in
    [gpu_to_render] and lets the renderer go once round its loop; a [read]
    takes from [render_to_gpu], where a response of at most
    [pipe_capacity] bytes lies whole. *)
Definition gpu_end : Kernel (proc pipes) := {|
  k_write srv fd d :=
    let p := kst srv in
    let srv1 := Build_proc (buf srv)
                  {| gpu_to_render := gpu_to_render p ++ d;
                     render_to_gpu := render_to_gpu p |}
                  (trace srv) in
    (len d, snd (op_loop renderer_end debug rc glyphBuffer readFd writeFd 1 srv1));
  k_read srv fd n :=
    let p := kst srv in
    let (d, rest) := pipe_read (render_to_gpu p) n in
    (Some d, Build_proc (buf srv)
               {| gpu_to_render := gpu_to_render p; render_to_gpu := rest |}
               (trace srv))
|}.

(** A renderer waiting for a request, both pipes empty. *)
Definition idle_renderer (glyph_bytes : Buf.t) : proc pipes :=
  Build_proc glyph_bytes {| gpu_to_render := []; render_to_gpu := [] |} [].

(** A client about to call, with [fBuffer] as the last call left it. *)
Definition client (fBuffer glyph_bytes : Buf.t) : proc (proc pipes) :=
  Build_proc fBuffer (idle_renderer glyph_bytes) [].

End Exchange.

(** Between two calls of the client nothing is under way: both pipes are
    empty. *)
Definition quiet (s : proc (proc pipes)) : Prop :=
  kst (kst s) = {| gpu_to_render := []; render_to_gpu := [] |}.

(** ** Kernels that misbehave *)

(** A kernel that moves at most [n] bytes per call, in either direction;
    its state is what the peer has sent and the client has not yet read. *)
Definition trickle (n : Z) : Kernel (list byte) := {|
  k_write q fd d := (Z.min n (len d), q);
  k_read q fd count :=
    let d := clamp (Z.min n count) q in (Some d, skipn (length d) q)
|}.

(** A pipe seen from its writing end when the reader takes at most [n]
    bytes per [write]: the state is what has gone into the pipe.  The
    other direction is at its end. *)
Definition slow_pipe (n : Z) : Kernel (list byte) := {|
  k_write q fd d := let a := clamp n d in (len a, q ++ a);
  k_read q fd count := (Some [], q)
|}.

(** A kernel on which every [write] goes through and every [read] fails. *)
Definition failing_reads : Kernel unit := {|
  k_write q fd d := (len d, q);
  k_read q fd count := (None, q)
|}.

(** A kernel on which no [write] goes through and every [read] fails. *)
Definition dead_pipe : Kernel unit := {|
  k_write q fd d := (-1, q);
  k_read q fd count := (None, q)
|}.

(** ** What the specification says of traces *)

Definition is_read (e : event) : bool :=
  match e with EvRead _ _ _ => true | _ => false end.

Definition is_write (e : event) : bool :=
  match e with EvWrite _ _ _ => true | _ => false end.


(** The byte counts the [read] calls of a trace asked for, in order. *)
Definition read_counts (tr : list event) : list Z :=
  flat_map (fun e => match e with EvRead _ n _ => [n] | _ => [] end) tr.

(** The discipline of the specification for opcodes 2 and 3: a [read] of
    exactly the frame, then a [read] of exactly the trailing length. *)
Definition frame_then_trailing `{ABI} (tr : list event) (trailing : Z) : Prop :=
  read_counts tr = [sizeof_Op; trailing].

(** The discipline of the specification for partial transfers: a call that
    moved some but not all of the [need] bytes of a frame is followed by
    another call of its kind. *)
Fixpoint partial_io_retried (need : Z) (tr : list event) : bool :=
  match tr with
  | [] => true
  | EvRead _ _ r :: rest =>
      (negb ((0 <? r) && (r <? need)) || existsb is_read rest)
      && partial_io_retried need rest
  | EvWrite _ _ r :: rest =>
      (negb ((0 <? r) && (r <? need)) || existsb is_write rest)
      && partial_io_retried need rest
  | EvClose _ :: rest => partial_io_retried need rest
  end.

(** ** A sample target *)

(** One layout that satisfies the laws of [ABI], and one provider for it,
    to run the model on concrete inputs.  The glyph has [fImage] in its
    first eight bytes, [fWidth] and [fHeight] as 16-bit fields at offsets
    28 and 30 and the mask format in the byte at offset 36; a row of an
    image takes as many bytes as the mask format asks for. *)
Module Sample.

(** The integer in the [n] bytes at offset [off] of [g]. *)
Definition field (g : list byte) (off n : nat) : Z :=
  le_combine (firstn n (skipn off g)).

Definition align4 (x : Z) : Z := (x + 3) / 4 * 4.

(** One bit, one byte, four bytes or two bytes per pixel. *)
Definition ComputeRowBytes (width format : Z) : Z :=
  if format =? 0 then (width + 7) / 8
  else if format =? 3 then width * 4
  else if format =? 4 then align4 (width * 2)
  else align4 width.

Definition row_bytes (g : list byte) : Z := ComputeRowBytes (field g 28 2) (field g 36 1).
Definition height (g : list byte) : Z := field g 30 2.
Definition with_fImage (p : Z) (g : list byte) : list byte := le_split 8 p ++ skipn 8 g.

Lemma field_range g off n : 0 <= field g off n < 2 ^ (8 * Z.of_nat n).
Proof.
  unfold field.
  pose proof (le_combine_bound (firstn n (skipn off g))) as Hb.
  assert (Hlen : (length (firstn n (skipn off g)) <= n)%nat) by (rewrite length_firstn; lia).
  assert (2 ^ (8 * Z.of_nat (length (firstn n (skipn off g)))) <= 2 ^ (8 * Z.of_nat n))
    by (apply Z.pow_le_mono_r; lia).
  split; [apply Hb | eapply Z.lt_le_trans; [apply Hb | assumption]].
Qed.

Lemma field_with_fImage p g off n :
  (8 <= off)%nat -> field (with_fImage p g) off n = field g off n.
Proof.
  intros Hoff. unfold field, with_fImage.
  rewrite skipn_app, length_le_split.
  rewrite skipn_all2 by (rewrite length_le_split; lia).
  rewrite skipn_skipn. simpl.
  now replace (off - 8 + 8)%nat with off by lia.
Qed.

Lemma row_bytes_range g : 0 <= row_bytes g < 2 ^ 32.
Proof.
  unfold row_bytes, ComputeRowBytes, align4.
  pose proof (field_range g 28 2) as Hw.
  change (2 ^ (8 * Z.of_nat 2)) with 65536 in Hw.
  change (2 ^ 32) with 4294967296.
  repeat match goal with |- context [if ?c then _ else _] => destruct c end;
    Z.div_mod_to_equations; lia.
Qed.

Lemma len_with_fImage p g : len g = 40 -> len (with_fImage p g) = 40.
Proof.
  unfold len, with_fImage. intros Hg.
  rewrite length_app, length_le_split, length_skipn. lia.
Qed.

Definition abi : ABI.
Proof.
  refine {|
    sizeof_FontMetrics := 60;
    sizeof_SkGlyph := 40;
    sizeof_union := 64;
    offsetof_descriptor := 72;
    sizeof_Descriptor := 96;
    sizeof_Op := 168;
    rowBytes := row_bytes;
    fHeight := height;
    set_fImage := with_fImage
  |}.
  all: try (unfold offsetof_union, kBufferSize, kPageSize; lia).
  - exact row_bytes_range.
  - intros g. exact (field_range g 30 2).
  - intros p g. apply len_with_fImage.
  - intros p g _. unfold row_bytes. now rewrite !field_with_fImage by lia.
  - intros p g _. unfold height. now rewrite field_with_fImage by lia.
Defined.

#[local] Existing Instance abi.

(** A glyph of the sample layout, by its fields. *)
Definition glyph (fImage id width height format : Z) : list byte :=
  le_split 8 fImage ++ le_split 8 0 ++ le_split 4 0 ++ le_split 4 0
  ++ le_split 4 id ++ le_split 2 width ++ le_split 2 height
  ++ le_split 2 0 ++ le_split 2 0 ++ le_split 1 format ++ [Byte.x00; Byte.x00; Byte.x00].

(** Font metrics of fifteen 32-bit words; the third, fourth and sixth hold
    the patterns of the floats 10, -2 and 1 (ascent, descent, leading). *)
Definition metrics : list byte :=
  flat_map (le_split 4)
    [0; 0; 0x41200000; 0xC0000000; 0; 0x3F800000; 0; 0; 0; 0; 0; 0; 0; 0; 0].

(** A scaler context that gives every glyph eight by twelve pixels of one
    byte each, all set, and a short outline. *)
Definition context : ScalerContext.
Proof.
  refine {|
    getFontMetrics := metrics;
    getMetrics g := glyph (field g 0 8) (field g 24 4) 8 12 1;
    getImage g := repeat Byte.xff (Z.to_nat (row_bytes g * height g));
    getPath id := le_split 2 id ++ [Byte.x01; Byte.x02; Byte.x03]
  |}.
  - reflexivity.
  - intros g. unfold glyph, len. now rewrite !length_app, !length_le_split.
Defined.

Definition provider : Provider := fun _ _ => context.

(** A descriptor of the sample size. *)
Definition descriptor : list byte := repeat Byte.x2a 96.

(** The letter A: glyph 65, eight pixels wide, twelve high, one byte per
    pixel. *)
Definition glyph_A : list byte := glyph 0 65 8 12 1.

(** The frame at the start of a buffer. *)
Definition frame_of (b : Buf.t) : list byte := Buf.load b 0 sizeof_Op.

(** A font-metrics request for font 7. *)
Definition metrics_frame : list byte := frame_of (request Buf.zero 0 7 descriptor).

(** A request with opcode 7. *)
Definition bad_frame : list byte := frame_of (request Buf.zero 7 7 descriptor).

(** An image request for a glyph of 4096 by 2048 pixels of one byte. *)
Definition big_frame : list byte :=
  frame_of (Buf.store (request Buf.zero 2 7 descriptor) offsetof_glyph
              (glyph 0 65 4096 2048 1)).

(** A stand-in for Skia's pictures: the bytes themselves are the
    picture, and no bytes are no picture.  The replay of a picture makes
    no call and comes back. *)
Definition MakeFromData {K : Type} (picData : list byte) : M K (option (list byte)) :=
  ret (match picData with [] => None | _ => Some picData end).

Definition replay {K : Type} (pic picData : list byte) : M K bool := ret true.

End Sample.

(** * Part II: facts about the model *)

(** ** Buffers *)

Lemma length_load b off n : length (Buf.load b off n) = Z.to_nat n.
Proof. unfold Buf.load. now rewrite length_map, length_seq. Qed.

Lemma len_load b off n : 0 <= n -> len (Buf.load b off n) = n.
Proof. intros. unfold len. rewrite length_load. lia. Qed.

Lemma store_inside b off d i :
  off <= i < off + len d ->
  Buf.store b off d i = nth (Z.to_nat (i - off)) d Byte.x00.
Proof.
  unfold len. intros Hi. unfold Buf.store.
  destruct (Z.leb_spec off i); destruct (Z.ltb_spec i (off + Z.of_nat (length d)));
    simpl; try reflexivity; lia.
Qed.

Lemma store_outside b off d i :
  i < off \/ off + len d <= i -> Buf.store b off d i = b i.
Proof.
  unfold len. intros Hi. unfold Buf.store.
  destruct (Z.leb_spec off i); destruct (Z.ltb_spec i (off + Z.of_nat (length d)));
    simpl; try reflexivity; lia.
Qed.

Lemma store_nil b off i : Buf.store b off [] i = b i.
Proof. apply store_outside. unfold len. simpl. lia. Qed.

Lemma load_ext b b' off n :
  (forall i, off <= i < off + n -> b i = b' i) ->
  Buf.load b off n = Buf.load b' off n.
Proof.
  intros Hb. unfold Buf.load. apply map_ext_in.
  intros k Hk. apply in_seq in Hk. apply Hb. lia.
Qed.

Lemma nth_map_lt {A B} (f : A -> B) (l : list A) k d d' :
  (k < length l)%nat -> nth k (map f l) d = f (nth k l d').
Proof.
  revert k. induction l as [|a l IH]; intros [|k] Hk; simpl in *;
    try lia; auto. apply IH. lia.
Qed.

Lemma nth_load b off n k :
  (k < Z.to_nat n)%nat ->
  nth k (Buf.load b off n) Byte.x00 = b (off + Z.of_nat k).
Proof.
  intros Hk. unfold Buf.load.
  rewrite (nth_map_lt _ _ _ _ 0%nat) by now rewrite length_seq.
  now rewrite seq_nth.
Qed.

(** Reading back what was just stored. *)
Lemma load_store_len b off d n :
  len d = n -> Buf.load (Buf.store b off d) off n = d.
Proof.
  intros <-. apply nth_ext with (d := Byte.x00) (d' := Byte.x00).
  - rewrite length_load. unfold len. lia.
  - intros k Hk. rewrite length_load in Hk. unfold len in Hk.
    rewrite nth_load by (unfold len; assumption).
    rewrite store_inside by (unfold len; lia). f_equal. lia.
Qed.

(** A store does not change what lies outside its range. *)
Lemma load_store_disjoint b off d off' n :
  off' + n <= off \/ off + len d <= off' ->
  Buf.load (Buf.store b off d) off' n = Buf.load b off' n.
Proof.
  intros Hsep. apply load_ext. intros i Hi. apply store_outside. lia.
Qed.

(** Copying a window of [c] to the same place in [b] makes every
    sub-window read as in [c]. *)
Lemma load_store_window b c off n off' m :
  off <= off' -> off' + m <= off + n ->
  Buf.load (Buf.store b off (Buf.load c off n)) off' m = Buf.load c off' m.
Proof.
  intros H1 H2. apply load_ext. intros i Hi.
  rewrite store_inside by (rewrite len_load; lia).
  rewrite nth_load by lia. f_equal. lia.
Qed.

Lemma slice_load b ws off n :
  0 <= off -> 0 <= n -> off + n <= ws ->
  slice (Buf.load b 0 ws) off n = Buf.load b off n.
Proof.
  intros Hoff Hn Hws. unfold slice.
  apply nth_ext with (d := Byte.x00) (d' := Byte.x00).
  - rewrite length_firstn, length_skipn, !length_load. lia.
  - intros k Hk.
    rewrite length_firstn, length_skipn, !length_load in Hk.
    rewrite nth_firstn.
    destruct (Nat.ltb_spec k (Z.to_nat n)) as [Hlt|Hge]; [|lia].
    rewrite nth_skipn, !nth_load by lia. f_equal. lia.
Qed.

(** ** Integers and byte strings *)

Lemma clamp_fits n d : len d <= n -> clamp n d = d.
Proof. unfold clamp. intros Hd. destruct (Z.leb_spec (len d) n); [reflexivity | lia]. Qed.

Lemma len_clamp_min n d : 0 <= n -> len (clamp n d) = Z.min n (len d).
Proof.
  intros Hn. unfold clamp. destruct (Z.leb_spec (len d) n) as [Hle|Hgt]; [lia|].
  unfold len in *. rewrite length_firstn. lia.
Qed.

Lemma len_clamp n d : 0 <= n -> len (clamp n d) <= n.
Proof. intros Hn. rewrite len_clamp_min by assumption. lia. Qed.

Lemma nth_clamp n d k :
  Z.of_nat k < n -> nth k (clamp n d) Byte.x00 = nth k d Byte.x00.
Proof.
  intros Hk. unfold clamp. destruct (Z.leb_spec (len d) n); [reflexivity|].
  rewrite nth_firstn.
  destruct (Nat.ltb_spec k (Z.to_nat n)); [reflexivity | lia].
Qed.

(** What a role finds in the first [n] bytes of its buffer after a [read]
    of at most [n] bytes from a pipe that holds a window of the peer's
    buffer. *)
Lemma load_store_clamp cb b ws n off m :
  0 <= off -> off + m <= n -> off + m <= ws ->
  Buf.load (Buf.store cb 0 (clamp n (Buf.load b 0 ws))) off m = Buf.load b off m.
Proof.
  intros Hoff Hn Hws. apply load_ext. intros i Hi.
  assert (Hlen : len (clamp n (Buf.load b 0 ws)) = Z.min n ws)
    by (rewrite len_clamp_min, len_load; lia).
  rewrite store_inside by lia.
  rewrite nth_clamp by lia.
  rewrite nth_load by lia. f_equal. lia.
Qed.

Lemma signed32_small z : 0 <= z < 2 ^ 31 -> signed32 z = z.
Proof.
  intros Hz. unfold signed32, wrap32.
  rewrite Z.mod_small by lia.
  destruct (Z.ltb_spec z (2 ^ 31)); lia.
Qed.

Lemma le_combine_split_small n z :
  0 <= z < 2 ^ (Z.of_nat n * 8) -> le_combine (le_split n z) = z.
Proof. intros Hz. rewrite le_combine_split. now apply Z.mod_small. Qed.

Lemma le_combine_split_4 z : 0 <= z < 2 ^ 32 -> le_combine (le_split 4 z) = z.
Proof. apply (le_combine_split_small 4). Qed.

Lemma len_le_split n z : len (le_split n z) = Z.of_nat n.
Proof. unfold len. now rewrite length_le_split. Qed.

(** ** The layout *)

Section LayoutFacts.
Context `{ABI}.

Lemma sizeof_Op_lower : offsetof_union + 16 <= sizeof_Op.
Proof.
  pose proof path_in_union. pose proof descriptor_after_union.
  pose proof descriptor_in_Op. lia.
Qed.

Lemma sizeof_Op_pos : 0 < sizeof_Op.
Proof. pose proof sizeof_Op_lower. unfold offsetof_union in *. lia. Qed.

Lemma imageSize_range g : 0 <= imageSize g < 2 ^ 32.
Proof. unfold imageSize, wrap32. apply Z.mod_pos_bound. lia. Qed.

Lemma imageSize_set_fImage p g :
  len g = sizeof_SkGlyph -> imageSize (set_fImage p g) = imageSize g.
Proof.
  intros Hg. unfold imageSize.
  now rewrite rowBytes_set_fImage, fHeight_set_fImage.
Qed.


Lemma len_glyph b : len (Op.glyph b) = sizeof_SkGlyph.
Proof. apply len_load. apply SkGlyph_in_union. Qed.

End LayoutFacts.

(** Arithmetic over the layout: the laws of [ABI] and the offsets. *)
Ltac layout :=
  pose proof sizeof_Op_lower; pose proof Op_in_buffer;
  pose proof FontMetrics_in_union; pose proof SkGlyph_in_union;
  pose proof path_in_union; pose proof descriptor_after_union;
  pose proof descriptor_in_Op;
  rewrite ?len_le_split;
  unfold offsetof_op, offsetof_typeface_id, offsetof_fontMetrics, offsetof_glyph,
    offsetof_glyphId, offsetof_pathSize, offsetof_union, kBufferSize, kPageSize in *;
  lia.

(** ** The request as [createOp] builds it *)

Section RequestFacts.
Context `{ABI}.

Lemma createOp_request {K} opID fontID rec (s : proc K) :
  createOp opID fontID rec s
  = (tt, Build_proc (request (buf s) opID fontID rec) (kst s) (trace s)).
Proof. reflexivity. Qed.

Lemma request_op b opID fontID rec :
  0 <= opID < 2 ^ 31 -> Op.op (request b opID fontID rec) = opID.
Proof.
  intros Hop. unfold Op.op, request.
  rewrite load_store_disjoint by layout.
  rewrite load_store_len by apply len_le_split.
  rewrite le_combine_split_4 by lia. now apply signed32_small.
Qed.

Lemma request_typeface_id b opID fontID rec :
  0 <= fontID < 2 ^ 32 -> Op.typeface_id (request b opID fontID rec) = fontID.
Proof.
  intros Hid. unfold Op.typeface_id, request.
  rewrite load_store_len by apply len_le_split.
  now apply le_combine_split_4.
Qed.

Lemma request_descriptor b opID fontID rec :
  len rec = sizeof_Descriptor -> Op.descriptor (request b opID fontID rec) = rec.
Proof.
  intros Hrec. unfold Op.descriptor, request.
  rewrite !load_store_disjoint by layout.
  now apply load_store_len.
Qed.

(** Storing into the union leaves [op]. *)
Lemma op_store_union b d :
  len d <= sizeof_union -> Op.op (Buf.store b offsetof_union d) = Op.op b.
Proof.
  intros Hd. unfold Op.op. now rewrite load_store_disjoint by layout.
Qed.

(** The frame the renderer finds in its buffer reads, field by field, as
    the client's buffer did. *)
Lemma received_window gb cb off n :
  0 <= off -> off + n <= sizeof_Op ->
  Buf.load (Buf.store gb 0 (Buf.load cb 0 sizeof_Op)) off n = Buf.load cb off n.
Proof. intros. apply load_store_window; lia. Qed.

Lemma received_op gb cb : Op.op (Buf.store gb 0 (Buf.load cb 0 sizeof_Op)) = Op.op cb.
Proof. unfold Op.op. now rewrite received_window by layout. Qed.

Lemma received_typeface_id gb cb :
  Op.typeface_id (Buf.store gb 0 (Buf.load cb 0 sizeof_Op)) = Op.typeface_id cb.
Proof. unfold Op.typeface_id. now rewrite received_window by layout. Qed.

Lemma received_descriptor gb cb :
  Op.descriptor (Buf.store gb 0 (Buf.load cb 0 sizeof_Op)) = Op.descriptor cb.
Proof. unfold Op.descriptor. now rewrite received_window by layout. Qed.

Lemma received_glyph gb cb :
  Op.glyph (Buf.store gb 0 (Buf.load cb 0 sizeof_Op)) = Op.glyph cb.
Proof. unfold Op.glyph. now rewrite received_window by layout. Qed.

End RequestFacts.

(** ** The loop body, case by case *)

Section DispatchFacts.
Context `{ABI}.
Variables (debug : bool) (rc : Provider) (glyphBuffer : Z).

Lemma dispatch_FontMetrics b :
  Op.op b = 0 ->
  dispatch debug rc glyphBuffer b
  = Some (Buf.store b offsetof_fontMetrics (getFontMetrics (context_of rc b)), sizeof_Op).
Proof. unfold dispatch. intros ->. reflexivity. Qed.

Lemma dispatch_GlyphMetrics b :
  Op.op b = 1 ->
  dispatch debug rc glyphBuffer b
  = Some (Buf.store b offsetof_glyph (getMetrics (context_of rc b) (Op.glyph b)), sizeof_Op).
Proof. unfold dispatch. intros ->. reflexivity. Qed.

Lemma len_image_glyph b : len (image_glyph glyphBuffer b) = sizeof_SkGlyph.
Proof. apply set_fImage_size, len_glyph. Qed.

(** [op->glyph] reads back as it was assigned, also after the pixels
    have been written behind the frame. *)
Lemma glyph_after_image b pixels :
  Op.glyph (Buf.store (Buf.store b offsetof_glyph (image_glyph glyphBuffer b))
              sizeof_Op pixels)
  = image_glyph glyphBuffer b.
Proof.
  unfold Op.glyph. rewrite load_store_disjoint by layout.
  apply load_store_len, len_image_glyph.
Qed.

Lemma dispatch_GlyphImage b :
  Op.op b = 2 ->
  dispatch debug rc glyphBuffer b
  = Some (Buf.store (Buf.store b offsetof_glyph (image_glyph glyphBuffer b)) sizeof_Op
            (getImage (context_of rc b) (image_glyph glyphBuffer b)),
          sizeof_Op + imageSize (image_glyph glyphBuffer b)).
Proof.
  unfold dispatch. intros ->. cbv zeta.
  rewrite glyph_after_image.
  replace (Op.glyph (Buf.store b offsetof_glyph (image_glyph glyphBuffer b)))
    with (image_glyph glyphBuffer b)
    by (symmetry; apply load_store_len, len_image_glyph).
  do 2 f_equal. unfold wrap64. apply Z.mod_small.
  pose proof (imageSize_range (image_glyph glyphBuffer b)).
  change (2 ^ 32) with 4294967296 in *. change (2 ^ 64) with 18446744073709551616.
  layout.
Qed.

(** Any other value of [op->op]: the assertion holds in every build, and
    the frame goes back as it came. *)
Lemma dispatch_other b :
  Op.op b <> 0 -> Op.op b <> 1 -> Op.op b <> 2 -> Op.op b <> 3 ->
  dispatch debug rc glyphBuffer b = Some (b, sizeof_Op).
Proof.
  unfold dispatch. intros H0 H1 H2 H3.
  assert (HA : SkASSERT debug true = false) by (unfold SkASSERT; now rewrite andb_false_r).
  rewrite HA.
  destruct (Op.op b) as [|p|p]; [congruence | | reflexivity].
  destruct p as [[|[]|]|[|[]|]|]; try reflexivity; congruence.
Qed.

(** The loop body never aborts, and away from opcodes 2 and 3 it leaves
    [writeSize] at [sizeof(Op)]. *)
Lemma dispatch_total b :
  exists b' ws,
    dispatch debug rc glyphBuffer b = Some (b', ws)
    /\ (Op.op b <> 2 -> Op.op b <> 3 -> ws = sizeof_Op).
Proof.
  destruct (Z.eq_dec (Op.op b) 0) as [H0|H0].
  { rewrite dispatch_FontMetrics by assumption. do 2 eexists. split; [reflexivity|]. auto. }
  destruct (Z.eq_dec (Op.op b) 1) as [H1|H1].
  { rewrite dispatch_GlyphMetrics by assumption. do 2 eexists. split; [reflexivity|]. auto. }
  destruct (Z.eq_dec (Op.op b) 2) as [H2|H2].
  { rewrite dispatch_GlyphImage by assumption. do 2 eexists. split; [reflexivity|]. congruence. }
  destruct (Z.eq_dec (Op.op b) 3) as [H3|H3].
  { unfold dispatch. rewrite H3. do 2 eexists. split; [reflexivity|]. congruence. }
  rewrite dispatch_other by assumption. do 2 eexists. split; [reflexivity|]. auto.
Qed.

(** For opcodes 0 and 1 the body stores into the union and nowhere else. *)
Lemma dispatch_metrics b :
  Op.op b = 0 \/ Op.op b = 1 ->
  exists d,
    len d <= sizeof_union
    /\ dispatch debug rc glyphBuffer b = Some (Buf.store b offsetof_union d, sizeof_Op).
Proof.
  intros [Hop|Hop].
  - exists (getFontMetrics (context_of rc b)). split.
    + rewrite getFontMetrics_size. apply FontMetrics_in_union.
    + now apply dispatch_FontMetrics.
  - exists (getMetrics (context_of rc b) (Op.glyph b)). split.
    + rewrite getMetrics_size. apply SkGlyph_in_union.
    + now apply dispatch_GlyphMetrics.
Qed.

End DispatchFacts.

(** ** One round of the renderer's loop *)

Section LoopFacts.
Context `{ABI} {K : Type} (kernel : Kernel K).
Variables (debug : bool) (rc : Provider) (glyphBuffer : Z).
Variables readFd writeFd : Z.

(** A round in which [read] brings data and no assertion fails: the
    buffer takes the data, the body runs, and [write] is called once with
    the [writeSize] the body computed. *)
Lemma op_loop_round fuel (s : proc K) d k' b' ws :
  k_read kernel (kst s) readFd sizeof_Op = (Some d, k') ->
  0 < len (clamp sizeof_Op d) ->
  dispatch debug rc glyphBuffer (Buf.store (buf s) 0 (clamp sizeof_Op d)) = Some (b', ws) ->
  op_loop kernel debug rc glyphBuffer readFd writeFd (S fuel) s
  = op_loop kernel debug rc glyphBuffer readFd writeFd fuel
      (snd (sys_write kernel writeFd ws
              (Build_proc b' k'
                 (trace s ++ [EvRead readFd sizeof_Op (len (clamp sizeof_Op d))])))).
Proof.
  intros Hread Hpos Hd.
  cbn [op_loop]. unfold bind at 1. unfold sys_read. rewrite Hread.
  destruct (Z.leb_spec (len (clamp sizeof_Op d)) 0) as [Hle|_]; [lia|].
  unfold bind at 1. unfold run_dispatch. cbn [buf kst trace]. rewrite Hd.
  unfold bind.
  destruct (sys_write kernel writeFd ws _) as [r s']. reflexivity.
Qed.

(** A round in which [read] returns zero or fails: the loop is left at
    once. *)
Lemma op_loop_break fuel (s : proc K) r k' :
  k_read kernel (kst s) readFd sizeof_Op = (r, k') ->
  r = None \/ r = Some [] ->
  op_loop kernel debug rc glyphBuffer readFd writeFd (S fuel) s
  = (OpBreak,
     Build_proc (match r with None => buf s | Some d => Buf.store (buf s) 0 d end) k'
       (trace s ++ [EvRead readFd sizeof_Op (match r with None => -1 | Some _ => 0 end)])).
Proof.
  intros Hread [-> | ->]; cbn [op_loop]; unfold bind, sys_read; rewrite Hread.
  - reflexivity.
  - pose proof sizeof_Op_pos.
    rewrite clamp_fits by (unfold len; simpl; lia). reflexivity.
Qed.

End LoopFacts.

(** ** One exchange over the pipes *)

Section PipeFacts.
Context `{ABI}.
Variables (debug : bool) (rc : Provider) (glyphBuffer : Z).
Variables readFd writeFd : Z.

(** One round of the renderer over the pipes: the frame is taken whole
    and the response is left in the other pipe. *)
Lemma round_on_pipes gb frame b' ws :
  len frame = sizeof_Op ->
  dispatch debug rc glyphBuffer (Buf.store gb 0 frame) = Some (b', ws) ->
  op_loop renderer_end debug rc glyphBuffer readFd writeFd 1
    (Build_proc gb {| gpu_to_render := frame; render_to_gpu := [] |} [])
  = (OpSpinning,
     Build_proc b' {| gpu_to_render := []; render_to_gpu := Buf.load b' 0 ws |}
       [EvRead readFd sizeof_Op sizeof_Op; EvWrite writeFd ws (len (Buf.load b' 0 ws))]).
Proof.
  intros Hlen Hd. pose proof sizeof_Op_pos.
  erewrite op_loop_round with (d := frame)
    (k' := {| gpu_to_render := []; render_to_gpu := [] |}).
  - rewrite clamp_fits by lia. rewrite Hlen. reflexivity.
  - cbn. unfold pipe_read. rewrite clamp_fits by lia. now rewrite skipn_all.
  - rewrite clamp_fits by lia. lia.
  - rewrite clamp_fits by lia. exact Hd.
Qed.

(** The client's [write] of a frame wakes the renderer, which takes the
    frame whole, serves it and leaves the response in the pipe. *)
Lemma write_frame_served cb gb tr fd b' ws :
  dispatch debug rc glyphBuffer (Buf.store gb 0 (Buf.load cb 0 sizeof_Op)) = Some (b', ws) ->
  sys_write (gpu_end debug rc glyphBuffer readFd writeFd) fd sizeof_Op
    (Build_proc cb (idle_renderer gb) tr)
  = (sizeof_Op,
     Build_proc cb
       (Build_proc b'
          {| gpu_to_render := []; render_to_gpu := Buf.load b' 0 ws |}
          [EvRead readFd sizeof_Op sizeof_Op;
           EvWrite writeFd ws (len (Buf.load b' 0 ws))])
       (tr ++ [EvWrite fd sizeof_Op sizeof_Op])).
Proof.
  intros Hd. pose proof sizeof_Op_pos as Hpos.
  assert (Hlen : len (Buf.load cb 0 sizeof_Op) = sizeof_Op) by (apply len_load; lia).
  unfold sys_write, gpu_end, idle_renderer. cbn [k_write kst buf trace gpu_to_render
    render_to_gpu app].
  rewrite (round_on_pipes gb (Buf.load cb 0 sizeof_Op) b' ws Hlen Hd).
  cbn [snd]. now rewrite Hlen.
Qed.

(** The client's [read] of a whole buffer: it takes what the pipe holds,
    up to the capacity. *)
Lemma read_capacity cb sb req q str tr fd :
  sys_read (gpu_end debug rc glyphBuffer readFd writeFd) fd kBufferSize
    (Build_proc cb (Build_proc sb {| gpu_to_render := req; render_to_gpu := q |} str) tr)
  = (len (clamp kBufferSize q),
     Build_proc (Buf.store cb 0 (clamp kBufferSize q))
       (Build_proc sb
          {| gpu_to_render := req;
             render_to_gpu := skipn (length (clamp kBufferSize q)) q |} str)
       (tr ++ [EvRead fd kBufferSize (len (clamp kBufferSize q))])).
Proof.
  unfold sys_read, gpu_end. cbn -[kBufferSize].
  unfold pipe_read.
  assert (Hc : clamp kBufferSize (clamp kBufferSize q) = clamp kBufferSize q).
  { apply clamp_fits. apply len_clamp. unfold kBufferSize, kPageSize. lia. }
  rewrite !Hc. reflexivity.
Qed.

End PipeFacts.

(** ** The calls a client operation makes *)

Section ClientCalls.
Context `{ABI} {K : Type} (kernel : Kernel K).
Variables fReadFd fWriteFd : Z.

(** [write(fWriteFd, fBuffer, sizeof(Op))] and then
    [read(fReadFd, fBuffer, sizeof(fBuffer))], each made once, whatever
    they return. *)
Lemma write_then_read (s : proc K) :
  exists r1 r2,
    trace (snd (bind (sys_write kernel fWriteFd sizeof_Op)
                     (fun _ => sys_read kernel fReadFd kBufferSize) s))
    = trace s ++ [EvWrite fWriteFd sizeof_Op r1; EvRead fReadFd kBufferSize r2].
Proof.
  unfold bind, sys_write, sys_read.
  destruct (k_write kernel (kst s) fWriteFd (Buf.load (buf s) 0 sizeof_Op)) as [r1 k1].
  cbn [kst buf trace].
  destruct (k_read kernel k1 fReadFd kBufferSize) as [[d|] k2]; cbn [snd trace];
    rewrite <- app_assoc; do 2 eexists; reflexivity.
Qed.

Lemma trace_poke off d (s : proc K) : trace (snd (poke off d s)) = trace s.
Proof. reflexivity. Qed.

Lemma trace_createOp opID fontID rec (s : proc K) :
  trace (snd (createOp opID fontID rec s)) = trace s.
Proof. reflexivity. Qed.

Lemma generateFontMetrics_calls fontID rec (s : proc K) :
  exists r1 r2,
    trace (snd (generateFontMetrics kernel fReadFd fWriteFd fontID rec s))
    = trace s ++ [EvWrite fWriteFd sizeof_Op r1; EvRead fReadFd kBufferSize r2].
Proof.
  unfold generateFontMetrics.
  destruct (write_then_read (snd (createOp 0 fontID rec s))) as (r1 & r2 & Hw).
  exists r1, r2. rewrite trace_createOp in Hw. rewrite <- Hw.
  unfold bind. simpl.
  destruct (sys_write kernel fWriteFd sizeof_Op _) as [w s1].
  destruct (sys_read kernel fReadFd kBufferSize s1) as [r s2]. reflexivity.
Qed.

Lemma generateMetrics_calls fontID rec glyph (s : proc K) :
  exists r1 r2,
    trace (snd (generateMetrics kernel fReadFd fWriteFd fontID rec glyph s))
    = trace s ++ [EvWrite fWriteFd sizeof_Op r1; EvRead fReadFd kBufferSize r2].
Proof.
  unfold generateMetrics.
  destruct (write_then_read
              (snd (poke offsetof_glyph glyph (snd (createOp 1 fontID rec s)))))
    as (r1 & r2 & Hw).
  exists r1, r2. rewrite trace_poke, trace_createOp in Hw. rewrite <- Hw.
  unfold bind. simpl.
  destruct (sys_write kernel fWriteFd sizeof_Op _) as [w s1].
  destruct (sys_read kernel fReadFd kBufferSize s1) as [r s2]. reflexivity.
Qed.

Lemma generateImage_calls fontID rec glyph (s : proc K) :
  exists r1 r2,
    trace (snd (generateImage kernel fReadFd fWriteFd fontID rec glyph s))
    = trace s ++ [EvWrite fWriteFd sizeof_Op r1; EvRead fReadFd kBufferSize r2].
Proof.
  unfold generateImage.
  destruct (write_then_read
              (snd (poke offsetof_glyph glyph (snd (createOp 2 fontID rec s)))))
    as (r1 & r2 & Hw).
  exists r1, r2. rewrite trace_poke, trace_createOp in Hw. rewrite <- Hw.
  unfold bind. simpl.
  destruct (sys_write kernel fWriteFd sizeof_Op _) as [w s1].
  destruct (sys_read kernel fReadFd kBufferSize s1) as [r s2]. reflexivity.
Qed.

Lemma generatePath_calls fontID rec glyph (s : proc K) :
  exists r1 r2,
    trace (snd (generatePath kernel fReadFd fWriteFd fontID rec glyph s))
    = trace s ++ [EvWrite fWriteFd sizeof_Op r1; EvRead fReadFd kBufferSize r2].
Proof.
  unfold generatePath.
  destruct (write_then_read
              (snd (poke offsetof_glyphId (le_split 2 glyph)
                      (snd (createOp 3 fontID rec s)))))
    as (r1 & r2 & Hw).
  exists r1, r2. rewrite trace_poke, trace_createOp in Hw. rewrite <- Hw.
  unfold bind. simpl.
  destruct (sys_write kernel fWriteFd sizeof_Op _) as [w s1].
  destruct (sys_read kernel fReadFd kBufferSize s1) as [r s2]. reflexivity.
Qed.

Lemma read_counts_app tr1 tr2 : read_counts (tr1 ++ tr2) = read_counts tr1 ++ read_counts tr2.
Proof. unfold read_counts. apply flat_map_app. Qed.

Lemma len_generateImage fontID rec glyph (s : proc K) :
  len (fst (generateImage kernel fReadFd fWriteFd fontID rec glyph s)) = imageSize glyph.
Proof.
  unfold generateImage, bind. simpl.
  destruct (sys_write kernel fWriteFd sizeof_Op _) as [w s1].
  destruct (sys_read kernel fReadFd kBufferSize s1) as [r s2].
  unfold peek. cbn [fst]. apply len_load. apply imageSize_range.
Qed.

Lemma len_generatePath fontID rec glyph (s : proc K) :
  let (path, s') := generatePath kernel fReadFd fWriteFd fontID rec glyph s in
  len path = Op.pathSize (buf s').
Proof.
  unfold generatePath, bind. simpl.
  destruct (sys_write kernel fWriteFd sizeof_Op _) as [w s1].
  destruct (sys_read kernel fReadFd kBufferSize s1) as [r s2].
  unfold peek, Op.pathSize. apply len_load. apply le_combine_bound.
Qed.

End ClientCalls.

(** * Part III: the properties of the specification *)

(** ** The client and the renderer joined by the pipes *)

Section OverThePipes.
Context `{ABI}.
Variables (debug : bool) (rc : Provider) (glyphBuffer : Z).
Variables readFd writeFd fReadFd fWriteFd : Z.

Let ke := gpu_end debug rc glyphBuffer readFd writeFd.

(** C1.  A font-metrics request (opcode 0) sent by the client over the
    pipes and served by the renderer's loop gives the client, bit for bit,
    the font metrics the provider produces for the same font id and
    descriptor.  This holds whatever the two buffers held before the
    call. *)
Theorem font_metrics_round_trip fBuffer glyph_bytes fontID rec :
  len rec = sizeof_Descriptor ->
  0 <= fontID < 2 ^ 32 ->
  fst (generateFontMetrics ke fReadFd fWriteFd fontID rec (client fBuffer glyph_bytes))
  = getFontMetrics (rc rec fontID).
Proof.
  intros Hrec Hid.
  unfold ke, generateFontMetrics, client, bind. rewrite createOp_request.
  cbn [buf kst trace].
  set (cb := request fBuffer 0 fontID rec).
  set (req := Buf.store glyph_bytes 0 (Buf.load cb 0 sizeof_Op)).
  assert (Hop : Op.op req = 0)
    by (unfold req; rewrite received_op; apply request_op; lia).
  assert (Hsc : context_of rc req = rc rec fontID).
  { unfold context_of, req. rewrite received_descriptor, received_typeface_id.
    unfold cb. now rewrite request_descriptor, request_typeface_id. }
  erewrite write_frame_served by (apply dispatch_FontMetrics; exact Hop).
  rewrite read_capacity. unfold peek. cbn [fst buf].
  fold req. rewrite Hsc.
  rewrite load_store_clamp by layout.
  apply load_store_len, getFontMetrics_size.
Qed.


(** C3, as the code has it.  A frame whose opcode is none of 0, 1, 2, 3
    does not stop the renderer, in a debug build or a release build:
    [SkASSERT("Bad op")] tests a string literal, which is never null.  The
    loop writes the frame back as it came, [sizeof(Op)] bytes, and goes on
    to the next [read]. *)
Theorem unknown_opcode_is_answered gb frame :
  len frame = sizeof_Op ->
  ~ In (Op.op (Buf.store gb 0 frame)) [0; 1; 2; 3] ->
  op_loop renderer_end debug rc glyphBuffer readFd writeFd 1
    (Build_proc gb {| gpu_to_render := frame; render_to_gpu := [] |} [])
  = (OpSpinning,
     Build_proc (Buf.store gb 0 frame)
       {| gpu_to_render := []; render_to_gpu := frame |}
       [EvRead readFd sizeof_Op sizeof_Op; EvWrite writeFd sizeof_Op sizeof_Op]).
Proof.
  intros Hlen Hop. simpl in Hop.
  erewrite round_on_pipes; [| assumption | apply dispatch_other; intuition].
  rewrite load_store_len by assumption. now rewrite Hlen.
Qed.

(** An image request is served whatever size its glyph asks for: the
    round ends with a [write] of the frame and that many bytes. *)
Lemma image_request_is_served gb frame :
  len frame = sizeof_Op ->
  Op.op (Buf.store gb 0 frame) = 2 ->
  let r := op_loop renderer_end debug rc glyphBuffer readFd writeFd 1
             (Build_proc gb {| gpu_to_render := frame; render_to_gpu := [] |} []) in
  let writeSize := sizeof_Op + imageSize (image_glyph glyphBuffer (Buf.store gb 0 frame)) in
  fst r = OpSpinning
  /\ trace (snd r) = [EvRead readFd sizeof_Op sizeof_Op; EvWrite writeFd writeSize writeSize].
Proof.
  intros Hlen Hop.
  erewrite round_on_pipes; [| assumption | now apply dispatch_GlyphImage].
  cbn [fst snd trace]. split; [reflexivity|].
  pose proof sizeof_Op_pos.
  pose proof (imageSize_range (image_glyph glyphBuffer (Buf.store gb 0 frame))).
  rewrite len_load by lia. reflexivity.
Qed.

(** C8.  For a request with opcode 0 or 1 the response the renderer writes
    has the length of the frame and differs from the request at most in
    the bytes of the union: every other byte, and so the [op] field, the
    [typeface_id] field and the bytes of [descriptor], is as in the
    request. *)
Theorem response_keeps_frame_outside_union gb frame :
  len frame = sizeof_Op ->
  Op.op (Buf.store gb 0 frame) = 0 \/ Op.op (Buf.store gb 0 frame) = 1 ->
  let s' := snd (op_loop renderer_end debug rc glyphBuffer readFd writeFd 1
                   (Build_proc gb {| gpu_to_render := frame; render_to_gpu := [] |} [])) in
  let response := render_to_gpu (kst s') in
  len response = sizeof_Op
  /\ (forall off n,
        0 <= off -> 0 <= n -> off + n <= sizeof_Op ->
        off + n <= offsetof_union \/ offsetof_union + sizeof_union <= off ->
        slice response off n = slice frame off n)
  /\ slice response offsetof_op 4 = slice frame offsetof_op 4
  /\ slice response offsetof_typeface_id 4 = slice frame offsetof_typeface_id 4
  /\ slice response offsetof_descriptor sizeof_Descriptor
     = slice frame offsetof_descriptor sizeof_Descriptor.
Proof.
  intros Hlen Hop.
  destruct (dispatch_metrics debug rc glyphBuffer _ Hop) as (d & Hd & Hdisp).
  erewrite round_on_pipes by eassumption.
  cbn [snd kst render_to_gpu].
  pose proof sizeof_Op_pos.
  assert (Hout : forall off n,
        0 <= off -> 0 <= n -> off + n <= sizeof_Op ->
        off + n <= offsetof_union \/ offsetof_union + sizeof_union <= off ->
        slice (Buf.load (Buf.store (Buf.store gb 0 frame) offsetof_union d) 0 sizeof_Op) off n
        = slice frame off n).
  { intros off n Hoff Hn Hin Hsep.
    rewrite slice_load by lia.
    rewrite load_store_disjoint by lia.
    rewrite <- (load_store_len gb 0 frame sizeof_Op Hlen) at 2.
    now rewrite slice_load by lia. }
  split; [apply len_load; lia|].
  split; [exact Hout|].
  repeat split; apply Hout; layout.
Qed.

End OverThePipes.

(** ** The client on any kernel *)

Section ClientOnAnyKernel.
Context `{ABI} {K : Type} (kernel : Kernel K).
Variables fReadFd fWriteFd : Z.

(** C4, as the code has it.  For opcodes 2 and 3 the client makes one
    [read], which asks for the whole of [fBuffer], and no second one; the
    number of trailing bytes it then takes is [rowBytes() * fHeight] of the
    caller's glyph for opcode 2 and the [pathSize] field of the buffer for
    opcode 3, whatever the [read] returned. *)
Theorem trailing_taken_after_one_read fontID rec glyph glyphId (s : proc K) :
  (let (image, s') := generateImage kernel fReadFd fWriteFd fontID rec glyph s in
   read_counts (trace s') = read_counts (trace s) ++ [kBufferSize]
   /\ len image = imageSize glyph)
  /\
  (let (path, s') := generatePath kernel fReadFd fWriteFd fontID rec glyphId s in
   read_counts (trace s') = read_counts (trace s) ++ [kBufferSize]
   /\ len path = Op.pathSize (buf s')).
Proof.
  split.
  - pose proof (generateImage_calls kernel fReadFd fWriteFd fontID rec glyph s)
      as (r1 & r2 & Htr).
    pose proof (len_generateImage kernel fReadFd fWriteFd fontID rec glyph s) as Hlen.
    destruct (generateImage kernel fReadFd fWriteFd fontID rec glyph s) as [image s'].
    cbn [fst snd] in *. split; [|assumption].
    rewrite Htr, read_counts_app. reflexivity.
  - pose proof (generatePath_calls kernel fReadFd fWriteFd fontID rec glyphId s)
      as (r1 & r2 & Htr).
    pose proof (len_generatePath kernel fReadFd fWriteFd fontID rec glyphId s) as Hlen.
    destruct (generatePath kernel fReadFd fWriteFd fontID rec glyphId s) as [path s'].
    cbn [fst snd] in *. split; [|assumption].
    rewrite Htr, read_counts_app. reflexivity.
Qed.

(** C6, as the code has it.  Each of the four client operations makes one
    [write] of the frame and one [read] into the whole buffer and returns:
    this is its whole trace on every kernel, so whatever byte counts the
    two calls return, no call is made a second time. *)
Theorem one_write_one_read fontID rec glyph glyphId (s : proc K) :
  let calls (tr : list event) :=
    exists r1 r2,
      tr = trace s ++ [EvWrite fWriteFd sizeof_Op r1; EvRead fReadFd kBufferSize r2] in
  calls (trace (snd (generateFontMetrics kernel fReadFd fWriteFd fontID rec s)))
  /\ calls (trace (snd (generateMetrics kernel fReadFd fWriteFd fontID rec glyph s)))
  /\ calls (trace (snd (generateImage kernel fReadFd fWriteFd fontID rec glyph s)))
  /\ calls (trace (snd (generatePath kernel fReadFd fWriteFd fontID rec glyphId s))).
Proof.
  cbv zeta. repeat split.
  - apply generateFontMetrics_calls.
  - apply generateMetrics_calls.
  - apply generateImage_calls.
  - apply generatePath_calls.
Qed.

End ClientOnAnyKernel.

(** ** The renderer on any kernel *)

Section RendererOnAnyKernel.
Context `{ABI} {K : Type} (kernel : Kernel K).
Variables (debug : bool) (rc : Provider) (glyphBuffer : Z).
Variables readFd writeFd : Z.
Variables r2g_read r2g_write g2r_read g2r_write : Z.

(** C7.  When the renderer's [read] of a frame returns zero, the loop is
    left at once: nothing is served and nothing is written, the buffer is
    as it was, and the role closes [readFd] and then [writeFd] and returns
    0, the status of a normal end. *)
Theorem end_of_stream_ends_renderer fuel (s : proc K) k' :
  k_read kernel (kst s) readFd sizeof_Op = (Some [], k') ->
  let (st, s') := serve_ops kernel debug rc glyphBuffer readFd writeFd (S fuel) s in
  st = Returned 0
  /\ trace s' = trace s ++ [EvRead readFd sizeof_Op 0; EvClose readFd; EvClose writeFd]
  /\ (forall i, buf s' i = buf s i).
Proof.
  intros Hread. unfold serve_ops, bind.
  rewrite (op_loop_break kernel debug rc glyphBuffer readFd writeFd fuel s (Some []) k')
    by (auto || assumption).
  cbn. rewrite <- !app_assoc. repeat split. intros i. apply store_nil.
Qed.

(** C9, as the code has it.  A transport failure seen by the renderer
    role is not reported by the driving process.  When a [write] of the
    picture fails, [renderer] returns 1 at once, with neither descriptor
    closed.  When the [read] of a frame fails, the loop is left as at the
    end of the stream: the role closes [readFd] and then [writeFd] and
    [renderer] returns 0.  Either way [start_render] drops what [renderer]
    returned and [main] returns 0 in the parent. *)
Theorem transport_failure_exits_with_0 fuel pic (s0 sent : proc K) e r k' :
  send_loop kernel r2g_write (S fuel) pic 0
    (snd (sys_write_data kernel r2g_write (le_split 8 (len pic))
            (snd (sys_close g2r_write (snd (sys_close r2g_read s0))))))
  = (e, sent) ->
  k_read kernel (kst sent) g2r_read sizeof_Op = (r, k') ->
  e = SendReturn1 \/ (e = SendDone /\ r = None) ->
  fst (renderer kernel debug rc glyphBuffer g2r_read r2g_write (S fuel) pic
         (snd (sys_close g2r_write (snd (sys_close r2g_read s0)))))
  = match e with SendDone => Returned 0 | _ => Returned 1 end
  /\ main_parent kernel debug rc glyphBuffer r2g_read r2g_write g2r_read g2r_write
       (S fuel) pic s0
     = (Returned 0,
        match e with
        | SendDone =>
            Build_proc (buf sent) k'
              (trace sent ++ [EvRead g2r_read sizeof_Op (-1);
                              EvClose g2r_read; EvClose r2g_write])
        | _ => sent
        end).
Proof.
  intros Hsend Hread Hfail.
  assert (Hserve : e = SendDone -> r = None ->
            serve_ops kernel debug rc glyphBuffer g2r_read r2g_write (S fuel) sent
            = (Returned 0,
               Build_proc (buf sent) k'
                 (trace sent ++ [EvRead g2r_read sizeof_Op (-1);
                                 EvClose g2r_read; EvClose r2g_write]))).
  { intros _ Hr. subst r. unfold serve_ops, bind.
    rewrite (op_loop_break kernel debug rc glyphBuffer g2r_read r2g_write fuel sent None k')
      by (auto || assumption).
    cbn. now rewrite <- !app_assoc. }
  set (c := snd (sys_close g2r_write (snd (sys_close r2g_read s0)))) in *.
  assert (Hren : renderer kernel debug rc glyphBuffer g2r_read r2g_write (S fuel) pic c
                 = match e with
                   | SendDone =>
                       serve_ops kernel debug rc glyphBuffer g2r_read r2g_write (S fuel) sent
                   | SendReturn1 => (Returned 1, sent)
                   | SendSpinning => (Running, sent)
                   end).
  { unfold renderer, bind.
    destruct (sys_write_data kernel r2g_write (le_split 8 (len pic)) c) as [w0 s1].
    cbn [snd] in Hsend. rewrite Hsend. destruct e; reflexivity. }
  assert (Hmain : main_parent kernel debug rc glyphBuffer r2g_read r2g_write g2r_read
                    g2r_write (S fuel) pic s0
                  = let (st, s') :=
                      renderer kernel debug rc glyphBuffer g2r_read r2g_write (S fuel) pic c in
                    (match st with Returned _ => Returned 0 | other => other end, s')).
  { unfold main_parent, start_render, bind. subst c. unfold sys_close at 1 2. cbn [snd].
    destruct (renderer kernel debug rc glyphBuffer g2r_read r2g_write (S fuel) pic _)
      as [[code| |] s']; reflexivity. }
  rewrite Hmain, Hren.
  destruct Hfail as [-> | [-> ->]].
  - split; reflexivity.
  - rewrite Hserve by reflexivity. split; reflexivity.
Qed.

(** C10.  In a round in which [read] brings data, the renderer calls
    [write] once, and unless the opcode of the frame is 2 or 3 the count it
    passes is [sizeof(Op)]: the responses to opcodes 0 and 1 are the frame
    alone, with no trailing bytes. *)
Theorem only_images_and_paths_have_trailing (s : proc K) d k' :
  k_read kernel (kst s) readFd sizeof_Op = (Some d, k') ->
  0 < len (clamp sizeof_Op d) ->
  let received := Buf.store (buf s) 0 (clamp sizeof_Op d) in
  exists writeSize result,
    trace (snd (op_loop kernel debug rc glyphBuffer readFd writeFd 1 s))
    = trace s ++ [EvRead readFd sizeof_Op (len (clamp sizeof_Op d));
                  EvWrite writeFd writeSize result]
    /\ (Op.op received = 0 \/ Op.op received = 1 -> writeSize = sizeof_Op)
    /\ (writeSize <> sizeof_Op -> Op.op received = 2 \/ Op.op received = 3).
Proof.
  intros Hread Hpos received.
  destruct (dispatch_total debug rc glyphBuffer received) as (b' & ws & Hd & Hws).
  rewrite (op_loop_round kernel debug rc glyphBuffer readFd writeFd 0 s d k' b' ws)
    by assumption.
  cbn [op_loop]. unfold ret, sys_write. cbn [buf kst trace].
  destruct (k_write kernel k' writeFd (Buf.load b' 0 ws)) as [r k2]. cbn [snd trace].
  exists ws, r. rewrite <- app_assoc. split; [reflexivity|]. split.
  - intros [Hop|Hop]; apply Hws; lia.
  - intros Hne.
    destruct (Z.eq_dec (Op.op received) 2); [now left|].
    destruct (Z.eq_dec (Op.op received) 3); [now right|].
    exfalso. auto.
Qed.

End RendererOnAnyKernel.

(** ** Runs on the sample target *)

(** The client uses descriptors 3 and 4 and asks for font 7; the renderer
    uses descriptors 5 and 6 and has its buffer at address 4096; the
    parent's pipes are 10, 11 and 12, 13. *)
Section Runs.
#[local] Existing Instance Sample.abi.

Lemma font_metrics_round_trip_run :
  len Sample.descriptor = sizeof_Descriptor
  /\ 0 <= 7 < 2 ^ 32
  /\ fst (generateFontMetrics (gpu_end true Sample.provider 4096 5 6) 3 4 7
            Sample.descriptor (client Buf.zero Buf.zero))
     = Sample.metrics.
Proof.
  split; [reflexivity|]. split; [lia|].
  apply (font_metrics_round_trip true Sample.provider 4096 5 6 3 4
           Buf.zero Buf.zero 7 Sample.descriptor); [reflexivity | lia].
Defined.


(** The same exchange, run: 96 bytes follow the frame and 96 are copied. *)
Example image_A_is_96_bytes :
  let (image, s) :=
    generateImage (gpu_end true Sample.provider 4096 5 6) 3 4 7 Sample.descriptor
      Sample.glyph_A (client Buf.zero Buf.zero) in
  len image = 96
  /\ rowBytes (Op.glyph (buf s)) = 8
  /\ fHeight (Op.glyph (buf s)) = 12
  /\ trace (kst s) = [EvRead 5 168 168; EvWrite 6 (168 + 96) (168 + 96)]
  /\ trace s = [EvWrite 4 168 168; EvRead 3 kBufferSize (168 + 96)].
Proof. vm_compute. repeat split. Qed.

Lemma unknown_opcode_is_answered_run :
  len Sample.bad_frame = sizeof_Op
  /\ ~ In (Op.op (Buf.store Buf.zero 0 Sample.bad_frame)) [0; 1; 2; 3]
  /\ op_loop renderer_end true Sample.provider 4096 5 6 1
       (Build_proc Buf.zero {| gpu_to_render := Sample.bad_frame; render_to_gpu := [] |} [])
     = (OpSpinning,
        Build_proc (Buf.store Buf.zero 0 Sample.bad_frame)
          {| gpu_to_render := []; render_to_gpu := Sample.bad_frame |}
          [EvRead 5 sizeof_Op sizeof_Op; EvWrite 6 sizeof_Op sizeof_Op]).
Proof.
  assert (Hlen : len Sample.bad_frame = sizeof_Op) by reflexivity.
  assert (Hop : ~ In (Op.op (Buf.store Buf.zero 0 Sample.bad_frame)) [0; 1; 2; 3]).
  { vm_compute. intuition discriminate. }
  split; [exact Hlen|]. split; [exact Hop|].
  exact (unknown_opcode_is_answered true Sample.provider 4096 5 6 Buf.zero
           Sample.bad_frame Hlen Hop).
Defined.

(** C4: the two reads of the specification are not what the code does.
    In the image exchange above the client makes one [read], for the
    4194304 bytes of its buffer, and none for the frame or for the 96
    trailing bytes. *)
Lemma image_read_is_not_frame_then_trailing :
  read_counts
    (trace (snd (generateImage (gpu_end true Sample.provider 4096 5 6) 3 4 7
                   Sample.descriptor Sample.glyph_A (client Buf.zero Buf.zero))))
  = [4194304]
  /\ forall trailing,
       ~ frame_then_trailing
           (trace (snd (generateImage (gpu_end true Sample.provider 4096 5 6) 3 4 7
                          Sample.descriptor Sample.glyph_A (client Buf.zero Buf.zero))))
           trailing.
Proof.
  assert (Hc : read_counts
    (trace (snd (generateImage (gpu_end true Sample.provider 4096 5 6) 3 4 7
                   Sample.descriptor Sample.glyph_A (client Buf.zero Buf.zero))))
    = [4194304]) by (vm_compute; reflexivity).
  split; [exact Hc|].
  intros trailing. unfold frame_then_trailing. rewrite Hc. discriminate.
Qed.

(** C5, as the code has it.  An image request whose glyph asks for
    4096 * 2048 bytes is served like any other: the round ends with a
    [write] of [sizeof(Op) + 8388608] bytes from a buffer of 4194304, and
    no assertion stops it. *)
Theorem oversized_image_is_served :
  let r := op_loop renderer_end true Sample.provider 4096 5 6 1
             (Build_proc Buf.zero
                {| gpu_to_render := Sample.big_frame; render_to_gpu := [] |} []) in
  fst r = OpSpinning
  /\ trace (snd r) = [EvRead 5 168 168; EvWrite 6 (168 + 8388608) (168 + 8388608)]
  /\ kBufferSize < 168 + 8388608.
Proof.
  assert (Hlen : len Sample.big_frame = sizeof_Op) by reflexivity.
  assert (Hop : Op.op (Buf.store Buf.zero 0 Sample.big_frame) = 2)
    by (vm_compute; reflexivity).
  assert (Him : imageSize (image_glyph 4096 (Buf.store Buf.zero 0 Sample.big_frame))
                = 8388608)
    by (vm_compute; reflexivity).
  pose proof (image_request_is_served true Sample.provider 4096 5 6 Buf.zero
                Sample.big_frame Hlen Hop) as Hs.
  cbv zeta in *. rewrite Him in Hs. destruct Hs as [Hst Htr].
  split; [exact Hst|]. split; [exact Htr|]. reflexivity.
Qed.

(** C6: the retries of the specification are not what the code does.  On
    a pipe that moves ten bytes per call the [write] of the 168-byte frame
    returns 10 and the [read] returns 10; the client makes no further
    call. *)
Lemma partial_frame_is_not_retried :
  let tr :=
    trace (snd (generateFontMetrics (trickle 10) 3 4 7 Sample.descriptor
                  (Build_proc Buf.zero (repeat Byte.x01 168) []))) in
  tr = [EvWrite 4 168 10; EvRead 3 kBufferSize 10]
  /\ partial_io_retried sizeof_Op tr = false.
Proof. vm_compute. split; reflexivity. Qed.

Lemma end_of_stream_ends_renderer_run :
  k_read renderer_end {| gpu_to_render := []; render_to_gpu := [] |} 5 sizeof_Op
  = (Some [], {| gpu_to_render := []; render_to_gpu := [] |})
  /\ let (st, s') :=
       serve_ops renderer_end true Sample.provider 4096 5 6 1
         (Build_proc Buf.zero {| gpu_to_render := []; render_to_gpu := [] |} []) in
     st = Returned 0
     /\ trace s' = [] ++ [EvRead 5 sizeof_Op 0; EvClose 5; EvClose 6]
     /\ (forall i, buf s' i = Buf.zero i).
Proof.
  split; [reflexivity|].
  exact (end_of_stream_ends_renderer renderer_end true Sample.provider 4096 5 6 0
           (Build_proc Buf.zero {| gpu_to_render := []; render_to_gpu := [] |} [])
           {| gpu_to_render := []; render_to_gpu := [] |} eq_refl).
Defined.

Lemma response_keeps_frame_outside_union_run :
  len Sample.metrics_frame = sizeof_Op
  /\ (Op.op (Buf.store Buf.zero 0 Sample.metrics_frame) = 0
      \/ Op.op (Buf.store Buf.zero 0 Sample.metrics_frame) = 1)
  /\ let s' := snd (op_loop renderer_end true Sample.provider 4096 5 6 1
                      (Build_proc Buf.zero
                         {| gpu_to_render := Sample.metrics_frame;
                            render_to_gpu := [] |} [])) in
     let response := render_to_gpu (kst s') in
     len response = sizeof_Op
     /\ (forall off n,
           0 <= off -> 0 <= n -> off + n <= sizeof_Op ->
           off + n <= offsetof_union \/ offsetof_union + sizeof_union <= off ->
           slice response off n = slice Sample.metrics_frame off n)
     /\ slice response offsetof_op 4 = slice Sample.metrics_frame offsetof_op 4
     /\ slice response offsetof_typeface_id 4
        = slice Sample.metrics_frame offsetof_typeface_id 4
     /\ slice response offsetof_descriptor sizeof_Descriptor
        = slice Sample.metrics_frame offsetof_descriptor sizeof_Descriptor.
Proof.
  assert (Hlen : len Sample.metrics_frame = sizeof_Op) by reflexivity.
  assert (Hop : Op.op (Buf.store Buf.zero 0 Sample.metrics_frame) = 0
                \/ Op.op (Buf.store Buf.zero 0 Sample.metrics_frame) = 1)
    by (left; vm_compute; reflexivity).
  split; [exact Hlen|]. split; [exact Hop|].
  exact (response_keeps_frame_outside_union true Sample.provider 4096 5 6
           Buf.zero Sample.metrics_frame Hlen Hop).
Defined.

(** C9, run.  The parent sends a picture of three bytes and the first
    [read] of a frame fails.  The role closes its descriptors and [main]
    returns 0, not a status that tells of the failure. *)
Lemma read_failure_exits_with_0 :
  let r := main_parent failing_reads true Sample.provider 4096 10 11 12 13 5
             [Byte.x01; Byte.x02; Byte.x03] (Build_proc Buf.zero tt []) in
  fst r = Returned 0
  /\ trace (snd r) = [EvClose 10; EvClose 13; EvWrite 11 8 8; EvWrite 11 3 3;
                      EvRead 12 168 (-1); EvClose 12; EvClose 11].
Proof. vm_compute. split; reflexivity. Qed.

(** C9, run on a pipe that takes nothing.  The first [write] of the
    picture fails and [renderer] returns 1 with both descriptors open;
    [main] returns 0 all the same. *)
Lemma write_failure_exits_with_0 :
  fst (renderer dead_pipe true Sample.provider 4096 12 11 5
         [Byte.x01; Byte.x02; Byte.x03]
         (Build_proc Buf.zero tt [EvClose 10; EvClose 13]))
  = Returned 1
  /\ main_parent dead_pipe true Sample.provider 4096 10 11 12 13 5
       [Byte.x01; Byte.x02; Byte.x03] (Build_proc Buf.zero tt [])
     = (Returned 0,
        Build_proc Buf.zero tt
          [EvClose 10; EvClose 13; EvWrite 11 8 (-1); EvWrite 11 3 (-1)]).
Proof. vm_compute. split; reflexivity. Qed.

Lemma transport_failure_exits_with_0_run :
  send_loop failing_reads 11 5 [Byte.x01; Byte.x02; Byte.x03] 0
    (snd (sys_write_data failing_reads 11 (le_split 8 (len [Byte.x01; Byte.x02; Byte.x03]))
            (snd (sys_close 13 (snd (sys_close 10 (Build_proc Buf.zero tt [])))))))
  = (SendDone,
     Build_proc Buf.zero tt [EvClose 10; EvClose 13; EvWrite 11 8 8; EvWrite 11 3 3])
  /\ k_read failing_reads tt 12 sizeof_Op = (None, tt)
  /\ (SendDone = SendReturn1 \/ (SendDone = SendDone /\ @None (list byte) = None))
  /\ fst (renderer failing_reads true Sample.provider 4096 12 11 5
            [Byte.x01; Byte.x02; Byte.x03]
            (snd (sys_close 13 (snd (sys_close 10 (Build_proc Buf.zero tt []))))))
     = Returned 0
  /\ main_parent failing_reads true Sample.provider 4096 10 11 12 13 5
       [Byte.x01; Byte.x02; Byte.x03] (Build_proc Buf.zero tt [])
     = (Returned 0,
        Build_proc Buf.zero tt
          ([EvClose 10; EvClose 13; EvWrite 11 8 8; EvWrite 11 3 3]
           ++ [EvRead 12 sizeof_Op (-1); EvClose 12; EvClose 11])).
Proof.
  split; [reflexivity|]. split; [reflexivity|].
  split; [right; split; reflexivity|].
  exact (transport_failure_exits_with_0 failing_reads true Sample.provider 4096
           10 11 12 13 4 [Byte.x01; Byte.x02; Byte.x03] (Build_proc Buf.zero tt [])
           (Build_proc Buf.zero tt [EvClose 10; EvClose 13; EvWrite 11 8 8; EvWrite 11 3 3])
           SendDone None tt eq_refl eq_refl (or_intror (conj eq_refl eq_refl))).
Defined.

Lemma only_images_and_paths_have_trailing_run :
  k_read renderer_end
    {| gpu_to_render := Sample.metrics_frame; render_to_gpu := [] |} 5 sizeof_Op
  = (Some Sample.metrics_frame, {| gpu_to_render := []; render_to_gpu := [] |})
  /\ 0 < len (clamp sizeof_Op Sample.metrics_frame)
  /\ exists writeSize result,
       trace (snd (op_loop renderer_end true Sample.provider 4096 5 6 1
                     (Build_proc Buf.zero
                        {| gpu_to_render := Sample.metrics_frame;
                           render_to_gpu := [] |} [])))
       = [] ++ [EvRead 5 sizeof_Op (len (clamp sizeof_Op Sample.metrics_frame));
                EvWrite 6 writeSize result]
       /\ (Op.op (Buf.store Buf.zero 0 (clamp sizeof_Op Sample.metrics_frame)) = 0
           \/ Op.op (Buf.store Buf.zero 0 (clamp sizeof_Op Sample.metrics_frame)) = 1 ->
           writeSize = sizeof_Op)
       /\ (writeSize <> sizeof_Op ->
           Op.op (Buf.store Buf.zero 0 (clamp sizeof_Op Sample.metrics_frame)) = 2
           \/ Op.op (Buf.store Buf.zero 0 (clamp sizeof_Op Sample.metrics_frame)) = 3).
Proof.
  split; [reflexivity|]. split; [reflexivity|].
  exact (only_images_and_paths_have_trailing renderer_end true Sample.provider 4096 5 6
           (Build_proc Buf.zero
              {| gpu_to_render := Sample.metrics_frame; render_to_gpu := [] |} [])
           Sample.metrics_frame {| gpu_to_render := []; render_to_gpu := [] |}
           eq_refl eq_refl).
Defined.

End Runs.

(** * Part IV: the rest of the tool *)

(** ** Exchanges from any state between two calls *)

Section QuietFacts.
Context `{ABI}.
Variables (debug : bool) (rc : Provider) (glyphBuffer : Z).
Variables readFd writeFd : Z.

(** One round of the renderer over the pipes, whatever it has done
    before. *)
Lemma round_after_rounds gb str frame b' ws :
  len frame = sizeof_Op ->
  dispatch debug rc glyphBuffer (Buf.store gb 0 frame) = Some (b', ws) ->
  op_loop renderer_end debug rc glyphBuffer readFd writeFd 1
    (Build_proc gb {| gpu_to_render := frame; render_to_gpu := [] |} str)
  = (OpSpinning,
     Build_proc b' {| gpu_to_render := []; render_to_gpu := Buf.load b' 0 ws |}
       (str ++ [EvRead readFd sizeof_Op sizeof_Op;
                EvWrite writeFd ws (len (Buf.load b' 0 ws))])).
Proof.
  intros Hlen Hd. pose proof sizeof_Op_pos.
  erewrite op_loop_round with (d := frame)
    (k' := {| gpu_to_render := []; render_to_gpu := [] |}).
  - rewrite clamp_fits by lia. rewrite Hlen. cbn. now rewrite <- app_assoc.
  - cbn. unfold pipe_read. rewrite clamp_fits by lia. now rewrite skipn_all.
  - rewrite clamp_fits by lia. lia.
  - rewrite clamp_fits by lia. exact Hd.
Qed.

(** The [write] and the [read] of a client operation, from a state between
    two calls, when the response fits the client's buffer. *)
Lemma exchange_when_quiet cb gb str tr fW fR b' ws :
  dispatch debug rc glyphBuffer (Buf.store gb 0 (Buf.load cb 0 sizeof_Op)) = Some (b', ws) ->
  0 <= ws <= kBufferSize ->
  let ke := gpu_end debug rc glyphBuffer readFd writeFd in
  sys_read ke fR kBufferSize
    (snd (sys_write ke fW sizeof_Op
            (Build_proc cb
               (Build_proc gb {| gpu_to_render := []; render_to_gpu := [] |} str) tr)))
  = (ws,
     Build_proc (Buf.store cb 0 (Buf.load b' 0 ws))
       (Build_proc b' {| gpu_to_render := []; render_to_gpu := [] |}
          (str ++ [EvRead readFd sizeof_Op sizeof_Op; EvWrite writeFd ws ws]))
       (tr ++ [EvWrite fW sizeof_Op sizeof_Op; EvRead fR kBufferSize ws])).
Proof.
  intros Hd Hws ke. pose proof sizeof_Op_pos as Hpos.
  assert (Hlen : len (Buf.load cb 0 sizeof_Op) = sizeof_Op) by (apply len_load; lia).
  assert (Hresp : len (Buf.load b' 0 ws) = ws) by (apply len_load; lia).
  unfold ke, sys_write at 1, gpu_end at 2.
  cbn [k_write kst buf trace gpu_to_render render_to_gpu app snd].
  rewrite (round_after_rounds gb str (Buf.load cb 0 sizeof_Op) b' ws Hlen Hd).
  cbn [snd]. rewrite read_capacity.
  rewrite clamp_fits by lia. rewrite skipn_all, Hresp, Hlen, <- app_assoc. reflexivity.
Qed.

End QuietFacts.

Section RequestPayloads.
Context `{ABI}.
Variables (debug : bool) (rc : Provider) (glyphBuffer : Z).

Lemma typeface_id_store_union b d :
  len d <= sizeof_union ->
  Op.typeface_id (Buf.store b offsetof_union d) = Op.typeface_id b.
Proof.
  intros Hd. unfold Op.typeface_id. now rewrite load_store_disjoint by layout.
Qed.

Lemma descriptor_store_union b d :
  len d <= sizeof_union ->
  Op.descriptor (Buf.store b offsetof_union d) = Op.descriptor b.
Proof.
  intros Hd. unfold Op.descriptor. now rewrite load_store_disjoint by layout.
Qed.

(** What the renderer makes of a frame built by [createOp] and one store
    into the union: its opcode and its scaler context. *)
Lemma served_op gb cb0 opID fontID rec d :
  0 <= opID < 2 ^ 31 -> len d <= sizeof_union ->
  Op.op (Buf.store gb 0
           (Buf.load (Buf.store (request cb0 opID fontID rec) offsetof_union d) 0 sizeof_Op))
  = opID.
Proof.
  intros Hop Hd. rewrite received_op, op_store_union by assumption.
  now apply request_op.
Qed.

Lemma served_context gb cb0 opID fontID rec d :
  len rec = sizeof_Descriptor -> 0 <= fontID < 2 ^ 32 -> len d <= sizeof_union ->
  context_of rc
    (Buf.store gb 0
       (Buf.load (Buf.store (request cb0 opID fontID rec) offsetof_union d) 0 sizeof_Op))
  = rc rec fontID.
Proof.
  intros Hrec Hid Hd. unfold context_of.
  rewrite received_descriptor, received_typeface_id.
  rewrite descriptor_store_union, typeface_id_store_union by assumption.
  now rewrite request_descriptor, request_typeface_id.
Qed.

Lemma served_glyph gb cb g :
  len g = sizeof_SkGlyph ->
  Op.glyph (Buf.store gb 0 (Buf.load (Buf.store cb offsetof_union g) 0 sizeof_Op)) = g.
Proof.
  intros Hg. rewrite received_glyph. unfold Op.glyph, offsetof_glyph.
  now apply load_store_len.
Qed.

Lemma served_glyphId gb cb g :
  0 <= g < 2 ^ 16 ->
  Op.glyphId (Buf.store gb 0
                (Buf.load (Buf.store cb offsetof_union (le_split 2 g)) 0 sizeof_Op))
  = g.
Proof.
  intros Hg. unfold Op.glyphId. rewrite received_window by layout.
  unfold offsetof_glyphId. rewrite load_store_len by apply len_le_split.
  now apply (le_combine_split_small 2).
Qed.

Lemma dispatch_GlyphPath b :
  Op.op b = 3 ->
  let path := getPath (context_of rc b) (Op.glyphId b) in
  len path < 2 ^ 63 ->
  dispatch debug rc glyphBuffer b
  = Some (Buf.store (Buf.store b sizeof_Op path) offsetof_pathSize (le_split 8 (len path)),
          sizeof_Op + len path).
Proof.
  intros Hop path Hlen. unfold dispatch. rewrite Hop. cbv zeta. fold path.
  do 2 f_equal. unfold Op.pathSize.
  rewrite load_store_len by apply len_le_split.
  assert (0 <= len path) by (unfold len; lia).
  rewrite (le_combine_split_small 8)
    by (change (2 ^ (Z.of_nat 8 * 8)) with (2 ^ 64); lia).
  unfold wrap64. apply Z.mod_small.
  change (2 ^ 63) with 9223372036854775808 in *.
  change (2 ^ 64) with 18446744073709551616. layout.
Qed.

End RequestPayloads.

(** The two calls in the middle of every client operation. *)
Lemma write_read_then {K A} (kernel : Kernel K) fW fR n m (k : M K A) s :
  bind (sys_write kernel fW n) (fun _ => bind (sys_read kernel fR m) (fun _ => k)) s
  = k (snd (sys_read kernel fR m (snd (sys_write kernel fW n s)))).
Proof.
  unfold bind. destruct (sys_write kernel fW n s) as [w s1]. cbn [snd].
  destruct (sys_read kernel fR m s1) as [r s2]. reflexivity.
Qed.

Section FromQuiet.
Context `{ABI}.
Variables (debug : bool) (rc : Provider) (glyphBuffer : Z).
Variables readFd writeFd fReadFd fWriteFd : Z.

Let ke := gpu_end debug rc glyphBuffer readFd writeFd.

Lemma quiet_inv (s : proc (proc pipes)) :
  quiet s ->
  exists cb gb str tr,
    s = Build_proc cb (Build_proc gb {| gpu_to_render := []; render_to_gpu := [] |} str) tr.
Proof.
  destruct s as [cb [gb pp str] tr]. unfold quiet. cbn. intros ->.
  now exists cb, gb, str, tr.
Qed.

Lemma generateFontMetrics_from_quiet s fontID rec :
  quiet s -> len rec = sizeof_Descriptor -> 0 <= fontID < 2 ^ 32 ->
  exists s',
    generateFontMetrics ke fReadFd fWriteFd fontID rec s
    = (getFontMetrics (rc rec fontID), s') /\ quiet s'.
Proof.
  intros Hq Hrec Hid. destruct (quiet_inv s Hq) as (cb & gb & str & tr & ->).
  unfold generateFontMetrics. unfold bind at 1. rewrite createOp_request.
  cbn [buf kst trace]. rewrite write_read_then.
  set (cb1 := request cb 0 fontID rec).
  set (req := Buf.store gb 0 (Buf.load cb1 0 sizeof_Op)).
  assert (Hop : Op.op req = 0)
    by (unfold req; rewrite received_op; apply request_op; lia).
  assert (Hsc : context_of rc req = rc rec fontID).
  { unfold context_of, req. rewrite received_descriptor, received_typeface_id.
    unfold cb1. now rewrite request_descriptor, request_typeface_id. }
  unfold ke.
  rewrite (exchange_when_quiet debug rc glyphBuffer readFd writeFd cb1 gb str tr
             fWriteFd fReadFd _ _ (dispatch_FontMetrics debug rc glyphBuffer req Hop))
    by layout.
  cbn [snd]. unfold peek. cbn [buf]. eexists. split; [|shelve].
  f_equal. fold req. rewrite Hsc.
  rewrite load_store_window by layout.
  apply load_store_len, getFontMetrics_size.
  Unshelve. reflexivity.
Qed.

Lemma generateMetrics_from_quiet s fontID rec glyph :
  quiet s -> len rec = sizeof_Descriptor -> 0 <= fontID < 2 ^ 32 ->
  len glyph = sizeof_SkGlyph ->
  exists s',
    generateMetrics ke fReadFd fWriteFd fontID rec glyph s
    = (getMetrics (rc rec fontID) glyph, s') /\ quiet s'.
Proof.
  intros Hq Hrec Hid Hg. destruct (quiet_inv s Hq) as (cb & gb & str & tr & ->).
  unfold generateMetrics. unfold bind at 1. rewrite createOp_request.
  unfold bind at 1. unfold poke. cbn [buf kst trace]. rewrite write_read_then.
  pose proof SkGlyph_in_union as HG.
  set (cb1 := Buf.store (request cb 1 fontID rec) offsetof_glyph glyph).
  set (req := Buf.store gb 0 (Buf.load cb1 0 sizeof_Op)).
  assert (Hop : Op.op req = 1) by (apply served_op; lia).
  assert (Hsc : context_of rc req = rc rec fontID) by (apply served_context; lia).
  assert (Hgl : Op.glyph req = glyph) by now apply served_glyph.
  unfold ke.
  rewrite (exchange_when_quiet debug rc glyphBuffer readFd writeFd cb1 gb str tr
             fWriteFd fReadFd _ _ (dispatch_GlyphMetrics debug rc glyphBuffer req Hop))
    by layout.
  cbn [snd]. unfold peek. cbn [buf]. eexists. split; [|shelve].
  f_equal. fold req. rewrite Hsc, Hgl.
  rewrite load_store_window by layout.
  apply load_store_len, getMetrics_size.
  Unshelve. reflexivity.
Qed.

Lemma generateImage_from_quiet s fontID rec glyph :
  quiet s -> len rec = sizeof_Descriptor -> 0 <= fontID < 2 ^ 32 ->
  len glyph = sizeof_SkGlyph ->
  let pixels := getImage (rc rec fontID) (set_fImage (glyphBuffer + sizeof_Op) glyph) in
  len pixels = imageSize glyph ->
  sizeof_Op + imageSize glyph <= kBufferSize ->
  exists s',
    generateImage ke fReadFd fWriteFd fontID rec glyph s = (pixels, s') /\ quiet s'.
Proof.
  intros Hq Hrec Hid Hg pixels Hpx Hfit.
  destruct (quiet_inv s Hq) as (cb & gb & str & tr & ->).
  unfold generateImage. unfold bind at 1. rewrite createOp_request.
  unfold bind at 1. unfold poke. cbn [buf kst trace]. rewrite write_read_then.
  pose proof SkGlyph_in_union as HG.
  set (cb1 := Buf.store (request cb 2 fontID rec) offsetof_glyph glyph).
  set (req := Buf.store gb 0 (Buf.load cb1 0 sizeof_Op)).
  assert (Hop : Op.op req = 2) by (apply served_op; lia).
  assert (Hsc : context_of rc req = rc rec fontID) by (apply served_context; lia).
  assert (Hgl : image_glyph glyphBuffer req = set_fImage (glyphBuffer + sizeof_Op) glyph)
    by (unfold image_glyph; f_equal; now apply served_glyph).
  assert (Him : imageSize (image_glyph glyphBuffer req) = imageSize glyph)
    by (rewrite Hgl; now apply imageSize_set_fImage).
  pose proof (imageSize_range glyph) as Hrange.
  assert (Hd : dispatch debug rc glyphBuffer req
               = Some (Buf.store
                         (Buf.store req offsetof_glyph (image_glyph glyphBuffer req))
                         sizeof_Op
                         (getImage (context_of rc req) (image_glyph glyphBuffer req)),
                       sizeof_Op + imageSize glyph))
    by (rewrite <- Him; apply dispatch_GlyphImage; exact Hop).
  unfold ke.
  rewrite (exchange_when_quiet debug rc glyphBuffer readFd writeFd cb1 gb str tr
             fWriteFd fReadFd _ _ Hd) by layout.
  cbn [snd]. unfold peek. cbn [buf]. eexists. split; [|shelve].
  f_equal. rewrite Hsc, Hgl. fold pixels.
  rewrite load_store_window by layout.
  now apply load_store_len.
  Unshelve. reflexivity.
Qed.

Lemma generatePath_from_quiet s fontID rec glyphId :
  quiet s -> len rec = sizeof_Descriptor -> 0 <= fontID < 2 ^ 32 ->
  0 <= glyphId < 2 ^ 16 ->
  let path := getPath (rc rec fontID) glyphId in
  sizeof_Op + len path <= kBufferSize ->
  exists s',
    generatePath ke fReadFd fWriteFd fontID rec glyphId s = (path, s')
    /\ quiet s' /\ Op.pathSize (buf s') = len path.
Proof.
  intros Hq Hrec Hid Hg path Hfit.
  destruct (quiet_inv s Hq) as (cb & gb & str & tr & ->).
  unfold generatePath. unfold bind at 1. rewrite createOp_request.
  unfold bind at 1. unfold poke. cbn [buf kst trace]. rewrite write_read_then.
  pose proof path_in_union as HP.
  set (cb1 := Buf.store (request cb 3 fontID rec) offsetof_glyphId (le_split 2 glyphId)).
  set (req := Buf.store gb 0 (Buf.load cb1 0 sizeof_Op)).
  assert (Hl2 : len (le_split 2 glyphId) <= sizeof_union) by (rewrite len_le_split; lia).
  assert (Hop : Op.op req = 3) by (apply served_op; lia).
  assert (Hsc : context_of rc req = rc rec fontID) by (apply served_context; lia).
  assert (Hgl : Op.glyphId req = glyphId) by now apply served_glyphId.
  assert (Hlen : 0 <= len path) by (unfold len; lia).
  assert (Hd : dispatch debug rc glyphBuffer req
               = Some (Buf.store (Buf.store req sizeof_Op path) offsetof_pathSize
                         (le_split 8 (len path)),
                       sizeof_Op + len path)).
  { pose proof (dispatch_GlyphPath debug rc glyphBuffer req Hop) as Hdp.
    cbv zeta in Hdp. rewrite Hsc, Hgl in Hdp. apply Hdp. fold path.
    change (2 ^ 63) with 9223372036854775808. layout. }
  unfold ke.
  rewrite (exchange_when_quiet debug rc glyphBuffer readFd writeFd cb1 gb str tr
             fWriteFd fReadFd _ _ Hd) by layout.
  cbn [snd]. unfold bind, peek. cbn [buf].
  assert (Hps : le_combine
                  (Buf.load
                     (Buf.store cb1 0
                        (Buf.load
                           (Buf.store (Buf.store req sizeof_Op path) offsetof_pathSize
                              (le_split 8 (len path))) 0 (sizeof_Op + len path)))
                     offsetof_pathSize 8) = len path).
  { rewrite load_store_window by layout.
    rewrite load_store_len by apply len_le_split.
    apply (le_combine_split_small 8).
    change (2 ^ (Z.of_nat 8 * 8)) with 18446744073709551616. layout. }
  eexists. split; [|shelve].
  f_equal. rewrite Hps.
  rewrite load_store_window by layout.
  rewrite load_store_disjoint by layout.
  now apply load_store_len.
  Unshelve. split; [reflexivity|]. cbn [buf]. exact Hps.
Qed.

End FromQuiet.

(** ** Round trips and sequences of calls *)

(** A response that a pipe holds whole fits the buffers of both roles. *)
Lemma pipe_capacity_fits : pipe_capacity <= kBufferSize.
Proof. vm_compute. discriminate. Qed.

Section RoundTrips.
Context `{ABI}.
Variables (debug : bool) (rc : Provider) (glyphBuffer : Z).
Variables readFd writeFd fReadFd fWriteFd : Z.

Let ke := gpu_end debug rc glyphBuffer readFd writeFd.

(** X1.  From any state between two calls, a glyph-metrics request
    (opcode 1) gives the caller the glyph as the provider's [getMetrics]
    fills it for the same descriptor and font id, and leaves both pipes
    empty for the next call. *)
Theorem glyph_metrics_round_trip s fontID rec glyph :
  quiet s ->
  len rec = sizeof_Descriptor ->
  0 <= fontID < 2 ^ 32 ->
  len glyph = sizeof_SkGlyph ->
  let (filled, s') := generateMetrics ke fReadFd fWriteFd fontID rec glyph s in
  filled = getMetrics (rc rec fontID) glyph /\ quiet s'.
Proof.
  intros Hq Hrec Hid Hg.
  destruct (generateMetrics_from_quiet debug rc glyphBuffer readFd writeFd
              fReadFd fWriteFd s fontID rec glyph Hq Hrec Hid Hg) as (s' & Heq & Hq').
  fold ke in Heq. rewrite Heq. now split.
Qed.

(** X2.  From any state between two calls, a glyph-path request (opcode 3)
    whose response, the frame and the path behind it, is of at most
    [pipe_capacity] bytes, so that the pipe holds it whole for the one
    [read] of the client, gives the caller the bytes [writeToMemory]
    produced in the renderer; the [pathSize] field the client finds is
    their number, and both pipes are left empty. *)
Theorem glyph_path_round_trip s fontID rec glyphId :
  quiet s ->
  len rec = sizeof_Descriptor ->
  0 <= fontID < 2 ^ 32 ->
  0 <= glyphId < 2 ^ 16 ->
  sizeof_Op + len (getPath (rc rec fontID) glyphId) <= pipe_capacity ->
  let (path, s') := generatePath ke fReadFd fWriteFd fontID rec glyphId s in
  path = getPath (rc rec fontID) glyphId
  /\ Op.pathSize (buf s') = len path
  /\ quiet s'.
Proof.
  intros Hq Hrec Hid Hg Hpipe.
  assert (Hfit : sizeof_Op + len (getPath (rc rec fontID) glyphId) <= kBufferSize)
    by (pose proof pipe_capacity_fits; lia).
  destruct (generatePath_from_quiet debug rc glyphBuffer readFd writeFd
              fReadFd fWriteFd s fontID rec glyphId Hq Hrec Hid Hg Hfit)
    as (s' & Heq & Hq' & Hps).
  fold ke in Heq. rewrite Heq. auto.
Qed.

(** X3.  From any state between two calls, a glyph-image request
    (opcode 2) gives the caller the pixels [getImage] wrote in the
    renderer for the caller's glyph with [fImage] pointing behind the
    frame, when these are [rowBytes() * fHeight] bytes and the response,
    the frame and the pixels behind it, is of at most [pipe_capacity]
    bytes, so that the pipe holds it whole for the one [read] of the
    client; both pipes are left empty. *)
Theorem glyph_image_round_trip s fontID rec glyph :
  quiet s ->
  len rec = sizeof_Descriptor ->
  0 <= fontID < 2 ^ 32 ->
  len glyph = sizeof_SkGlyph ->
  len (getImage (rc rec fontID) (set_fImage (glyphBuffer + sizeof_Op) glyph))
  = imageSize glyph ->
  sizeof_Op + imageSize glyph <= pipe_capacity ->
  let (image, s') := generateImage ke fReadFd fWriteFd fontID rec glyph s in
  image = getImage (rc rec fontID) (set_fImage (glyphBuffer + sizeof_Op) glyph)
  /\ quiet s'.
Proof.
  intros Hq Hrec Hid Hg Hpx Hpipe.
  assert (Hfit : sizeof_Op + imageSize glyph <= kBufferSize)
    by (pose proof pipe_capacity_fits; lia).
  destruct (generateImage_from_quiet debug rc glyphBuffer readFd writeFd
              fReadFd fWriteFd s fontID rec glyph Hq Hrec Hid Hg Hpx Hfit)
    as (s' & Heq & Hq').
  fold ke in Heq. rewrite Heq. now split.
Qed.

(** X4.  Two path requests made one after the other, each with a
    response of at most [pipe_capacity] bytes, are answered in that order:
    the first call returns the path of the first glyph and the second
    call the path of the second, each for its own descriptor and font,
    and the pipes are empty again at the end. *)
Theorem paths_come_back_in_order s font1 rec1 glyph1 font2 rec2 glyph2 :
  quiet s ->
  len rec1 = sizeof_Descriptor -> 0 <= font1 < 2 ^ 32 -> 0 <= glyph1 < 2 ^ 16 ->
  len rec2 = sizeof_Descriptor -> 0 <= font2 < 2 ^ 32 -> 0 <= glyph2 < 2 ^ 16 ->
  sizeof_Op + len (getPath (rc rec1 font1) glyph1) <= pipe_capacity ->
  sizeof_Op + len (getPath (rc rec2 font2) glyph2) <= pipe_capacity ->
  let (path1, s1) := generatePath ke fReadFd fWriteFd font1 rec1 glyph1 s in
  let (path2, s2) := generatePath ke fReadFd fWriteFd font2 rec2 glyph2 s1 in
  path1 = getPath (rc rec1 font1) glyph1
  /\ path2 = getPath (rc rec2 font2) glyph2
  /\ quiet s2.
Proof.
  intros Hq Hrec1 Hid1 Hg1 Hrec2 Hid2 Hg2 Hpipe1 Hpipe2.
  assert (Hfit1 : sizeof_Op + len (getPath (rc rec1 font1) glyph1) <= kBufferSize)
    by (pose proof pipe_capacity_fits; lia).
  assert (Hfit2 : sizeof_Op + len (getPath (rc rec2 font2) glyph2) <= kBufferSize)
    by (pose proof pipe_capacity_fits; lia).
  destruct (generatePath_from_quiet debug rc glyphBuffer readFd writeFd
              fReadFd fWriteFd s font1 rec1 glyph1 Hq Hrec1 Hid1 Hg1 Hfit1)
    as (s1 & Heq1 & Hq1 & _).
  fold ke in Heq1. rewrite Heq1.
  destruct (generatePath_from_quiet debug rc glyphBuffer readFd writeFd
              fReadFd fWriteFd s1 font2 rec2 glyph2 Hq1 Hrec2 Hid2 Hg2 Hfit2)
    as (s2 & Heq2 & Hq2 & _).
  fold ke in Heq2. rewrite Heq2. auto.
Qed.

(** X5.  The usual pair of calls: [generateMetrics] for a glyph and then
    [generateImage] for the glyph it filled.  The image the caller gets is
    what [getImage] wrote for that filled glyph, when it is
    [rowBytes() * fHeight] bytes of it and the frame with the image
    behind it is of at most [pipe_capacity] bytes. *)
Theorem metrics_then_image s fontID rec glyph :
  quiet s ->
  len rec = sizeof_Descriptor ->
  0 <= fontID < 2 ^ 32 ->
  len glyph = sizeof_SkGlyph ->
  let sc := rc rec fontID in
  let behind := glyphBuffer + sizeof_Op in
  len (getImage sc (set_fImage behind (getMetrics sc glyph)))
  = imageSize (getMetrics sc glyph) ->
  sizeof_Op + imageSize (getMetrics sc glyph) <= pipe_capacity ->
  let (filled, s1) := generateMetrics ke fReadFd fWriteFd fontID rec glyph s in
  let (image, s2) := generateImage ke fReadFd fWriteFd fontID rec filled s1 in
  filled = getMetrics sc glyph
  /\ image = getImage sc (set_fImage behind filled)
  /\ len image = imageSize filled
  /\ quiet s2.
Proof.
  intros Hq Hrec Hid Hg sc behind Hpx Hpipe.
  assert (Hfit : sizeof_Op + imageSize (getMetrics sc glyph) <= kBufferSize)
    by (pose proof pipe_capacity_fits; lia).
  destruct (generateMetrics_from_quiet debug rc glyphBuffer readFd writeFd
              fReadFd fWriteFd s fontID rec glyph Hq Hrec Hid Hg) as (s1 & Heq1 & Hq1).
  fold ke in Heq1. rewrite Heq1. fold sc.
  destruct (generateImage_from_quiet debug rc glyphBuffer readFd writeFd
              fReadFd fWriteFd s1 fontID rec (getMetrics sc glyph) Hq1 Hrec Hid
              (getMetrics_size sc glyph) Hpx Hfit) as (s2 & Heq2 & Hq2).
  fold ke in Heq2. rewrite Heq2. fold sc behind.
  repeat split; auto.
Qed.

End RoundTrips.

(** ** The client when the response does not come *)

Section FailedRead.
Context `{ABI} {K : Type} (kernel : Kernel K).
Variables fReadFd fWriteFd : Z.

Lemma buf_after_failed_read (s : proc K) fW fR :
  (forall k, fst (k_read kernel k fR kBufferSize) = None) ->
  buf (snd (sys_read kernel fR kBufferSize (snd (sys_write kernel fW sizeof_Op s))))
  = buf s.
Proof.
  intros Hfail. unfold sys_write.
  destruct (k_write kernel (kst s) fW (Buf.load (buf s) 0 sizeof_Op)) as [w k1].
  cbn [snd]. unfold sys_read. cbn [kst buf trace].
  pose proof (Hfail k1) as Hk.
  destruct (k_read kernel k1 fR kBufferSize) as [r k2]. cbn [fst] in Hk. subst r.
  reflexivity.
Qed.

(** X6.  When the [read] of the response fails, no operation tells its
    caller: it returns what its buffer held before.  [generateFontMetrics]
    gives the bytes the union was left with by the previous call,
    [generateMetrics] gives the caller's glyph back unfilled,
    [generateImage] gives the old bytes behind the frame, and
    [generatePath] gives as many of those as the old [pathSize] says. *)
Theorem failed_read_returns_old_bytes (s : proc K) fontID rec glyph glyphId :
  len rec = sizeof_Descriptor ->
  len glyph = sizeof_SkGlyph ->
  (forall k, fst (k_read kernel k fReadFd kBufferSize) = None) ->
  fst (generateFontMetrics kernel fReadFd fWriteFd fontID rec s) = Op.fontMetrics (buf s)
  /\ fst (generateMetrics kernel fReadFd fWriteFd fontID rec glyph s) = glyph
  /\ fst (generateImage kernel fReadFd fWriteFd fontID rec glyph s)
     = Buf.load (buf s) sizeof_Op (imageSize glyph)
  /\ fst (generatePath kernel fReadFd fWriteFd fontID rec glyphId s)
     = Buf.load (buf s) sizeof_Op (Op.pathSize (buf s)).
Proof.
  intros Hrec Hg Hfail.
  pose proof SkGlyph_in_union as HG. pose proof path_in_union as HP.
  repeat split.
  - unfold generateFontMetrics. unfold bind at 1. rewrite createOp_request.
    rewrite write_read_then. unfold peek. cbn [fst].
    rewrite buf_after_failed_read by assumption. cbn [buf].
    unfold Op.fontMetrics, request. now rewrite !load_store_disjoint by layout.
  - unfold generateMetrics. unfold bind at 1. rewrite createOp_request.
    unfold bind at 1. unfold poke. cbn [buf kst trace].
    rewrite write_read_then. unfold peek. cbn [fst].
    rewrite buf_after_failed_read by assumption. cbn [buf].
    now apply load_store_len.
  - unfold generateImage. unfold bind at 1. rewrite createOp_request.
    unfold bind at 1. unfold poke. cbn [buf kst trace].
    rewrite write_read_then. unfold peek. cbn [fst].
    rewrite buf_after_failed_read by assumption. cbn [buf].
    pose proof (imageSize_range glyph).
    unfold request. now rewrite !load_store_disjoint by layout.
  - unfold generatePath. unfold bind at 1. rewrite createOp_request.
    unfold bind at 1. unfold poke. cbn [buf kst trace].
    rewrite write_read_then. unfold bind, peek. cbn [fst].
    rewrite buf_after_failed_read by assumption. cbn [buf].
    assert (Hps : le_combine
                    (Buf.load
                       (Buf.store (request (buf s) 3 fontID rec) offsetof_glyphId
                          (le_split 2 glyphId)) offsetof_pathSize 8)
                  = Op.pathSize (buf s)).
    { unfold Op.pathSize, request. now rewrite !load_store_disjoint by layout. }
    rewrite Hps.
    assert (0 <= Op.pathSize (buf s)) by apply le_combine_bound.
    unfold request. now rewrite !load_store_disjoint by layout.
Qed.

End FailedRead.

(** ** What ends the renderer's loop *)

Section LoopEnds.
Context `{ABI} {K : Type} (kernel : Kernel K).
Variables (debug : bool) (rc : Provider) (glyphBuffer : Z).
Variables readFd writeFd : Z.




End LoopEnds.

(** ** Sending the picture *)

Lemma clamp_then_rest n d : 0 <= n -> clamp n d ++ skipn (length (clamp n d)) d = d.
Proof.
  intros Hn. unfold clamp. destruct (Z.leb_spec (len d) n) as [Hle|Hgt].
  - now rewrite skipn_all, app_nil_r.
  - unfold len in Hgt. rewrite length_firstn.
    replace (Nat.min (Z.to_nat n) (length d)) with (Z.to_nat n) by lia.
    apply firstn_skipn.
Qed.

Lemma len_skipn w d : 0 <= w <= len d -> len (skipn (Z.to_nat w) d) = len d - w.
Proof. unfold len. intros Hw. rewrite length_skipn. lia. Qed.

Section SendFacts.
Context {K : Type} (kernel : Kernel K).
Variable writeFd : Z.
Variable pic : list byte.

(** The calls of the sending loop are [write] calls, and when the loop is
    left through [return 1] the last of them returned zero or failed. *)
Lemma send_loop_calls fuel w (s : proc K) :
  exists tr,
    trace (snd (send_loop kernel writeFd fuel pic w s)) = trace s ++ tr
    /\ Forall (fun e => is_write e = true) tr
    /\ (fst (send_loop kernel writeFd fuel pic w s) = SendReturn1 ->
        exists tr0 count result,
          tr = tr0 ++ [EvWrite writeFd count result] /\ result <= 0).
Proof.
  revert w s. induction fuel as [|fuel IH]; intros w s.
  - cbn. destruct (w <? len pic); cbn; exists []; rewrite app_nil_r;
      (split; [reflexivity | split; [constructor | discriminate]]).
  - cbn [send_loop]. destruct (w <? len pic); cbn [ret fst snd].
    2:{ exists []. rewrite app_nil_r. split; [reflexivity | split; [constructor | discriminate]]. }
    unfold bind, sys_write_data.
    destruct (k_write kernel (kst s) writeFd (skipn (Z.to_nat w) pic)) as [r k1].
    destruct (Z.leb_spec r 0) as [Hle|Hgt].
    + cbn. eexists. split; [reflexivity|]. split; [repeat constructor|].
      intros _. exists [], (len (skipn (Z.to_nat w) pic)), r. now split.
    + specialize (IH (w + r)
                     (Build_proc (buf s) k1
                        (trace s ++ [EvWrite writeFd (len (skipn (Z.to_nat w) pic)) r]))).
      destruct IH as (tr & Htr & Hall & Hret).
      exists (EvWrite writeFd (len (skipn (Z.to_nat w) pic)) r :: tr).
      split; [|split].
      * rewrite Htr. cbn [trace]. now rewrite <- app_assoc.
      * constructor; [reflexivity | assumption].
      * intros Hf. destruct (Hret Hf) as (tr0 & count & result & -> & Hres).
        exists (EvWrite writeFd (len (skipn (Z.to_nat w) pic)) r :: tr0), count, result.
        now split.
Qed.

(** X8.  The sending loop ends, whatever the kernel returns: a round
    either leaves through [return 1] or moves [writeSoFar] forward, so
    after at most [picSize - writeSoFar] rounds it is over. *)
Theorem send_loop_ends fuel w (s : proc K) :
  (Z.to_nat (len pic - w) <= fuel)%nat ->
  fst (send_loop kernel writeFd fuel pic w s) = SendDone
  \/ fst (send_loop kernel writeFd fuel pic w s) = SendReturn1.
Proof.
  revert w s. induction fuel as [|fuel IH]; intros w s Hfuel.
  - cbn. destruct (Z.ltb_spec w (len pic)); [lia | now left].
  - cbn [send_loop]. destruct (Z.ltb_spec w (len pic)) as [Hlt|Hge]; [|now left].
    unfold bind, sys_write_data.
    destruct (k_write kernel (kst s) writeFd (skipn (Z.to_nat w) pic)) as [r k1].
    destruct (Z.leb_spec r 0) as [Hle|Hgt]; [now right|].
    apply IH. lia.
Qed.

(** Over a pipe that takes at most [n] bytes per [write] the loop puts
    the rest of the picture in the pipe. *)
Lemma send_loop_slow n fuel w (s : proc (list byte)) :
  1 <= n -> 0 <= w <= len pic ->
  (Z.to_nat (len pic - w) <= fuel)%nat ->
  exists tr,
    send_loop (slow_pipe n) writeFd fuel pic w s
    = (SendDone, Build_proc (buf s) (kst s ++ skipn (Z.to_nat w) pic) (trace s ++ tr)).
Proof.
  intros Hn. revert w s. induction fuel as [|fuel IH]; intros w s Hw Hfuel.
  - cbn. destruct (Z.ltb_spec w (len pic)); [lia|].
    exists []. destruct s as [b q tr]. cbn.
    rewrite skipn_all2 by (unfold len in *; lia). now rewrite !app_nil_r.
  - cbn [send_loop]. destruct (Z.ltb_spec w (len pic)) as [Hlt|Hge].
    2:{ exists []. destruct s as [b q tr]. cbn.
        rewrite skipn_all2 by (unfold len in *; lia). now rewrite !app_nil_r. }
    unfold bind, sys_write_data. cbn [slow_pipe k_write].
    set (d := skipn (Z.to_nat w) pic).
    assert (Hd : len d = len pic - w) by (apply len_skipn; lia).
    assert (Ha : len (clamp n d) = Z.min n (len d)) by (apply len_clamp_min; lia).
    destruct (Z.leb_spec (len (clamp n d)) 0) as [Hle|_]; [lia|].
    destruct (IH (w + len (clamp n d))
                (Build_proc (buf s) (kst s ++ clamp n d)
                   (trace s ++ [EvWrite writeFd (len d) (len (clamp n d))])))
      as (tr & Heq); [lia | lia |].
    rewrite Heq. cbn [buf kst trace].
    exists (EvWrite writeFd (len d) (len (clamp n d)) :: tr).
    f_equal. f_equal.
    + rewrite <- app_assoc. f_equal.
      replace (Z.to_nat (w + len (clamp n d)))
        with (length (clamp n d) + Z.to_nat w)%nat by (unfold len; lia).
      rewrite <- skipn_skipn. fold d. apply clamp_then_rest. lia.
    + now rewrite <- app_assoc.
Qed.

End SendFacts.

Section SendClaims.
Context `{ABI} {K : Type} (kernel : Kernel K).
Variables (debug : bool) (rc : Provider) (glyphBuffer : Z).
Variables readFd writeFd : Z.

(** [renderer] in three steps: the length, the picture, the requests. *)
Lemma renderer_steps fuel pic (s : proc K) :
  renderer kernel debug rc glyphBuffer readFd writeFd fuel pic s
  = let s1 := snd (sys_write_data kernel writeFd (le_split 8 (len pic)) s) in
    let r := send_loop kernel writeFd fuel pic 0 s1 in
    match fst r with
    | SendDone => serve_ops kernel debug rc glyphBuffer readFd writeFd fuel (snd r)
    | SendReturn1 => (Returned 1, snd r)
    | SendSpinning => (Running, snd r)
    end.
Proof.
  unfold renderer, bind.
  destruct (sys_write_data kernel writeFd (le_split 8 (len pic)) s) as [r0 s1].
  cbn [snd]. destruct (send_loop kernel writeFd fuel pic 0 s1) as [[| |] s2]; reflexivity.
Qed.

Lemma serve_ops_not_1 fuel (s : proc K) :
  fst (serve_ops kernel debug rc glyphBuffer readFd writeFd fuel s) <> Returned 1.
Proof.
  unfold serve_ops, bind.
  destruct (op_loop kernel debug rc glyphBuffer readFd writeFd fuel s) as [[| |] s3];
    cbn; discriminate.
Qed.

(** X9.  When [renderer] returns 1 it has made [write] calls only, the
    last of which returned zero or failed: it has read nothing, served
    nothing and closed neither of its descriptors. *)
Theorem return_1_follows_a_failed_write fuel pic (s : proc K) :
  fst (renderer kernel debug rc glyphBuffer readFd writeFd fuel pic s) = Returned 1 ->
  exists writes count result,
    trace (snd (renderer kernel debug rc glyphBuffer readFd writeFd fuel pic s))
    = trace s ++ writes ++ [EvWrite writeFd count result]
    /\ Forall (fun e => is_write e = true) writes
    /\ result <= 0.
Proof.
  rewrite renderer_steps. cbv zeta.
  assert (Hhdr : exists r0,
             trace (snd (sys_write_data kernel writeFd (le_split 8 (len pic)) s))
             = trace s ++ [EvWrite writeFd 8 r0]).
  { unfold sys_write_data.
    destruct (k_write kernel (kst s) writeFd (le_split 8 (len pic))) as [r0 k1].
    exists r0. cbn. now rewrite len_le_split. }
  destruct Hhdr as (r0 & Hhdr).
  set (s1 := snd (sys_write_data kernel writeFd (le_split 8 (len pic)) s)) in *.
  destruct (send_loop_calls kernel writeFd pic fuel 0 s1) as (tr & Htr & Hall & Hret).
  destruct (send_loop kernel writeFd fuel pic 0 s1) as [e s2]. cbn [fst snd] in *.
  destruct e; cbn [fst snd].
  - intros Hst. now apply serve_ops_not_1 in Hst.
  - intros _. destruct (Hret eq_refl) as (tr0 & count & result & -> & Hres).
    exists (EvWrite writeFd 8 r0 :: tr0), count, result.
    split; [|split; [|exact Hres]].
    + rewrite Htr, Hhdr. now rewrite <- !app_assoc.
    + constructor; [reflexivity|].
      apply Forall_app in Hall. apply Hall.
  - discriminate.
Qed.

End SendClaims.

Section SlowPipe.
Context `{ABI}.
Variables (debug : bool) (rc : Provider) (glyphBuffer : Z).
Variables readFd writeFd : Z.

(** Over a pipe that takes at most [n] bytes per [write], with [n]
    enough for the eight bytes of [picSize], [renderer] leaves the size
    and the picture in the pipe, finds no request, closes and returns
    0. *)
Lemma renderer_over_slow_pipe n fuel pic (s : proc (list byte)) :
  8 <= n -> (length pic < fuel)%nat ->
  exists b' writes,
    Forall (fun e => is_write e = true) writes
    /\ renderer (slow_pipe n) debug rc glyphBuffer readFd writeFd fuel pic s
       = (Returned 0,
          Build_proc b' (kst s ++ le_split 8 (len pic) ++ pic)
            (trace s ++ EvWrite writeFd 8 8 :: writes
                     ++ [EvRead readFd sizeof_Op 0; EvClose readFd; EvClose writeFd])).
Proof.
  intros Hn Hfuel. rewrite renderer_steps. cbv zeta.
  assert (Hhdr : snd (sys_write_data (slow_pipe n) writeFd (le_split 8 (len pic)) s)
                 = Build_proc (buf s) (kst s ++ le_split 8 (len pic))
                     (trace s ++ [EvWrite writeFd 8 8])).
  { unfold sys_write_data. cbn [slow_pipe k_write snd].
    rewrite clamp_fits by (rewrite len_le_split; lia). now rewrite len_le_split. }
  rewrite Hhdr.
  set (s1 := Build_proc (buf s) (kst s ++ le_split 8 (len pic)) _).
  destruct (send_loop_slow writeFd pic n fuel 0 s1) as (tr & Heq);
    [lia | unfold len; lia | unfold len; lia |].
  destruct (send_loop_calls (slow_pipe n) writeFd pic fuel 0 s1) as (tr' & Htr' & Hall & _).
  rewrite Heq in Htr'. cbn [snd trace] in Htr'. apply app_inv_head in Htr'. subst tr'.
  rewrite Heq. cbn [fst snd].
  destruct fuel as [|fuel]; [lia|].
  unfold serve_ops, bind.
  erewrite op_loop_break with (r := Some []); [| reflexivity | now right].
  exists (Buf.store (buf s) 0 []), tr. split; [exact Hall|].
  cbn. rewrite <- (app_assoc (kst s)). rewrite <- !app_assoc. reflexivity.
Qed.

(** X10.  However the pipe splits the picture, [renderer] puts the eight
    bytes of [picSize] and then the whole picture in the pipe, in order
    and once each, when the pipe takes at most [n] bytes per [write] and
    [n] is enough for the eight bytes at once.  It makes [write] calls
    only until the picture is sent; then one [read] finds the stream of
    requests at its end, and it closes [readFd], closes [writeFd] and
    returns 0. *)
Theorem picture_is_sent_whole n fuel pic (s : proc (list byte)) :
  8 <= n -> (length pic < fuel)%nat ->
  let (st, s') := renderer (slow_pipe n) debug rc glyphBuffer readFd writeFd fuel pic s in
  st = Returned 0
  /\ kst s' = kst s ++ le_split 8 (len pic) ++ pic
  /\ exists writes,
       Forall (fun e => is_write e = true) writes
       /\ trace s' = trace s ++ EvWrite writeFd 8 8 :: writes
                              ++ [EvRead readFd sizeof_Op 0; EvClose readFd; EvClose writeFd].
Proof.
  intros Hn Hfuel.
  destruct (renderer_over_slow_pipe n fuel pic s Hn Hfuel) as (b' & writes & Hall & ->).
  split; [reflexivity|]. split; [reflexivity|].
  exists writes. split; [exact Hall | reflexivity].
Qed.

End SlowPipe.

(** ** Receiving the picture *)

Lemma load_of_list b off d :
  (forall k, (k < length d)%nat -> b (off + Z.of_nat k) = nth k d Byte.x00) ->
  Buf.load b off (len d) = d.
Proof.
  intros Hb. apply nth_ext with (d := Byte.x00) (d' := Byte.x00).
  - rewrite length_load. unfold len. lia.
  - intros k Hk. rewrite length_load in Hk. unfold len in Hk.
    rewrite nth_load by (unfold len; assumption). apply Hb. lia.
Qed.

Lemma clamp_app n a b : len a = n -> clamp n (a ++ b) = a.
Proof.
  intros Ha. unfold clamp, len in *. rewrite length_app.
  destruct (Z.leb_spec (Z.of_nat (length a + length b)) n) as [Hle|Hgt].
  - assert (length b = 0%nat) as Hb by lia.
    apply length_zero_iff_nil in Hb. subst b. apply app_nil_r.
  - replace (Z.to_nat n) with (length a + 0)%nat by lia.
    rewrite firstn_app_2. cbn. apply app_nil_r.
Qed.

Lemma wrap64_small z : 0 <= z < 2 ^ 64 -> wrap64 z = z.
Proof. apply Z.mod_small. Qed.

Lemma kPicBufferSize_value : kPicBufferSize = 41943040.
Proof. reflexivity. Qed.

Section RecvFacts.
Context {K : Type} (kernel : Kernel K).
Variable readFd : Z.

(** A [read] into the buffer at [off] brings at most the [n] bytes asked
    for and changes no byte outside [off .. off+n-1]. *)
Lemma sys_read_at_frame off n (s : proc K) :
  0 <= n ->
  fst (sys_read_at kernel readFd off n s) <= n
  /\ forall i, i < off \/ off + n <= i ->
       buf (snd (sys_read_at kernel readFd off n s)) i = buf s i.
Proof.
  intros Hn. unfold sys_read_at.
  destruct (k_read kernel (kst s) readFd n) as [[d|] k1]; cbn [fst snd buf].
  - pose proof (len_clamp n d Hn). split; [assumption|].
    intros i Hi. apply store_outside. lia.
  - split; [lia | reflexivity].
Qed.

(** X11.  The receiving loop keeps to [picBuffer]: whatever the kernel
    sends and however long the picture claims to be, no byte at or beyond
    the [kBufferSize] of [gpu] ([kPicBufferSize] here) is written, and no
    byte below [readSoFar], where what has been received lies, is written
    again.  A picture longer than the buffer is never complete: the loop
    does not end by its condition, only through [return] or [err]. *)
Theorem picture_stays_in_picBuffer fuel picSize readSoFar (s : proc K) :
  0 <= readSoFar <= kPicBufferSize ->
  let (e, s') := recv_loop kernel readFd fuel picSize readSoFar s in
  (forall i, i < readSoFar \/ kPicBufferSize <= i -> buf s' i = buf s i)
  /\ (kPicBufferSize < picSize -> e <> RecvDone).
Proof.
  revert readSoFar s. induction fuel as [|fuel IH]; intros w s Hw.
  - cbn -[kPicBufferSize]. destruct (Z.ltb_spec w picSize); cbn -[kPicBufferSize].
    + split; [reflexivity | discriminate].
    + split; [reflexivity | intros; exfalso; lia].
  - cbn [recv_loop]. destruct (Z.ltb_spec w picSize) as [Hlt|Hge]; cbn [ret].
    2:{ split; [reflexivity | intros; exfalso; lia]. }
    rewrite kPicBufferSize_value in *.
    assert (Hcount : wrap64 (41943040 - w) = 41943040 - w)
      by (apply wrap64_small; change (2 ^ 64) with 18446744073709551616; lia).
    unfold bind. rewrite ?kPicBufferSize_value, Hcount.
    destruct (sys_read_at_frame w (41943040 - w) s) as [Hr Hframe]; [lia|].
    destruct (sys_read_at kernel readFd w (41943040 - w) s) as [r s1].
    cbn [fst snd] in Hr, Hframe.
    destruct (Z.leb_spec r 0) as [Hle|Hgt].
    + destruct (r =? 0); cbn; (split; [intros i Hi; apply Hframe; lia | discriminate]).
    + assert (Hw' : wrap64 (w + r) = w + r)
        by (apply wrap64_small; change (2 ^ 64) with 18446744073709551616; lia).
      rewrite Hw'. specialize (IH (w + r) s1).
      rewrite ?kPicBufferSize_value in IH.
      destruct (recv_loop kernel readFd fuel picSize (w + r) s1) as [e s'].
      destruct IH as [Hbuf Hdone]; [lia|]. split; [|exact Hdone].
      intros i Hi. rewrite Hbuf by lia. apply Hframe. lia.
Qed.

End RecvFacts.

Section RecvTrickle.
Variable readFd : Z.
Variable pic : list byte.

(** Over a pipe that gives at most [m] bytes per [read] and holds the
    rest of the picture, the loop brings the picture into the buffer and
    empties the pipe. *)
Lemma recv_loop_trickle m fuel w (s : proc (list byte)) :
  1 <= m -> len pic <= kPicBufferSize -> 0 <= w <= len pic ->
  kst s = skipn (Z.to_nat w) pic ->
  (forall i, 0 <= i < w -> buf s i = nth (Z.to_nat i) pic Byte.x00) ->
  (Z.to_nat (len pic - w) <= fuel)%nat ->
  exists b' tr,
    recv_loop (trickle m) readFd fuel (len pic) w s
    = (RecvDone, Build_proc b' [] (trace s ++ tr))
    /\ Forall (fun e => is_read e = true) tr
    /\ forall i, 0 <= i < len pic -> b' i = nth (Z.to_nat i) pic Byte.x00.
Proof.
  intros Hm Hcap. revert w s. induction fuel as [|fuel IH]; intros w s Hw Hq Hb Hfuel.
  - cbn. destruct (Z.ltb_spec w (len pic)); [lia|].
    exists (buf s), []. destruct s as [b q tr]. cbn in *.
    rewrite skipn_all2 in Hq by (unfold len in *; lia). subst q.
    rewrite app_nil_r. split; [reflexivity|]. split; [constructor|].
    intros i Hi. apply Hb. lia.
  - cbn [recv_loop]. destruct (Z.ltb_spec w (len pic)) as [Hlt|Hge].
    2:{ exists (buf s), []. destruct s as [b q tr]. cbn in *.
        rewrite skipn_all2 in Hq by (unfold len in *; lia). subst q.
        rewrite app_nil_r. split; [reflexivity|]. split; [constructor|].
        intros i Hi. apply Hb. lia. }
    rewrite kPicBufferSize_value in *.
    assert (Hcount : wrap64 (41943040 - w) = 41943040 - w)
      by (apply wrap64_small; change (2 ^ 64) with 18446744073709551616; lia).
    unfold bind, sys_read_at. rewrite ?kPicBufferSize_value, Hcount.
    cbn [trickle k_read]. rewrite Hq.
    set (q := skipn (Z.to_nat w) pic).
    set (count := 41943040 - w).
    assert (Hlq : len q = len pic - w) by (apply len_skipn; lia).
    set (d := clamp (Z.min m count) q).
    assert (Hd : len d = Z.min (Z.min m count) (len q))
      by (apply len_clamp_min; unfold count; lia).
    assert (Hdd : clamp count d = d) by (apply clamp_fits; unfold count in *; lia).
    rewrite Hdd.
    destruct (Z.leb_spec (len d) 0) as [Hle|_]; [unfold count in *; lia|].
    assert (Hw' : wrap64 (w + len d) = w + len d)
      by (apply wrap64_small; change (2 ^ 64) with 18446744073709551616;
          unfold count in *; lia).
    rewrite Hw'.
    destruct (IH (w + len d)
                (Build_proc (Buf.store (buf s) w d) (skipn (length d) q)
                   (trace s ++ [EvRead readFd count (len d)])))
      as (b' & tr & Heq & Hall & Hb'); cbn [buf kst trace].
    + unfold count in *. lia.
    + unfold q. rewrite skipn_skipn. f_equal. unfold len. lia.
    + intros i Hi. destruct (Z.lt_ge_cases i w) as [Hiw|Hiw].
      * rewrite store_outside by lia. apply Hb. lia.
      * rewrite store_inside by lia. unfold d. rewrite nth_clamp by (unfold count in *; lia).
        unfold q. rewrite nth_skipn. f_equal. lia.
    + unfold count in *. lia.
    + exists b', (EvRead readFd count (len d) :: tr).
      rewrite Heq. cbn [trace]. rewrite <- app_assoc.
      split; [reflexivity|]. split; [|exact Hb'].
      constructor; [reflexivity | assumption].
Qed.

End RecvTrickle.

(** ** The rasterizer around the loop *)

Section GpuFacts.
Context {K : Type} (kernel : Kernel K).
Variables readFd writeFd : Z.
Context {Picture : Type}.
Variable MakeFromData : list byte -> M K (option Picture).
Variable replay : Picture -> list byte -> M K bool.
Variable fBuffer : Buf.t.

(** [gpu], call by call. *)
Lemma gpu_steps fuel (s : proc K) :
  gpu kernel readFd writeFd MakeFromData replay fBuffer fuel s
  = let (hdr, s1) := sys_read_into kernel readFd 8 (le_split 8 0) s in
    let (e, s2) := recv_loop kernel readFd fuel (le_combine (snd hdr)) 0 s1 in
    match e with
    | RecvDone =>
        let (back, s3) :=
          final_draw MakeFromData replay (Buf.load (buf s2) 0 (le_combine (snd hdr)))
            (Build_proc fBuffer (kst s2) (trace s2)) in
        if back then
          (GpuDone,
           Build_proc (buf s3) (kst s3) (trace s3 ++ [EvClose writeFd; EvClose readFd]))
        else (GpuFault, s3)
    | RecvReturn => (GpuEarly, s2)
    | RecvErr => (GpuExit 1, s2)
    | RecvSpinning => (GpuRunning, s2)
    end.
Proof.
  unfold gpu. unfold bind at 1.
  destruct (sys_read_into kernel readFd 8 (le_split 8 0) s) as [hdr s1].
  unfold bind at 1.
  destruct (recv_loop kernel readFd fuel (le_combine (snd hdr)) 0 s1) as [[] s2];
    try reflexivity.
  unfold bind at 1. unfold peek. unfold bind at 1. unfold enter_fBuffer.
  cbn [buf kst trace]. unfold bind at 1.
  destruct (final_draw MakeFromData replay _ _) as [[] s3]; [|reflexivity].
  unfold bind, sys_close, ret. cbn [buf kst trace].
  now rewrite <- app_assoc.
Qed.

(** X12.  The result of the first [read], the one for [picSize], is not
    looked at.  When it fails or finds the pipe closed, [picSize] keeps its
    initial 0 and the loop is not entered; [gpu] does not stop there as it
    does for a failure inside the loop, and calls [final_draw] for a
    picture of no bytes.  [MakeFromData] gives no picture for no bytes and
    [final_draw] uses what it gives unchecked, so [gpu] ends inside
    [final_draw]: it has made the one [read] and closes neither
    descriptor. *)
Theorem missing_size_ends_in_final_draw fuel (s : proc K) :
  fst (k_read kernel (kst s) readFd 8) = None
  \/ fst (k_read kernel (kst s) readFd 8) = Some [] ->
  (forall st, fst (MakeFromData [] st) = None) ->
  exists result, (result = -1 \/ result = 0) /\
  gpu kernel readFd writeFd MakeFromData replay fBuffer fuel s
  = (GpuFault,
     snd (MakeFromData []
            (Build_proc fBuffer (snd (k_read kernel (kst s) readFd 8))
               (trace s ++ [EvRead readFd 8 result])))).
Proof.
  intros Hr Hnull. rewrite gpu_steps. unfold sys_read_into.
  destruct (k_read kernel (kst s) readFd 8) as [r k1]. cbn [fst snd] in *.
  assert (Hfd : forall st, final_draw MakeFromData replay [] st
                           = (false, snd (MakeFromData [] st))).
  { intros st. unfold final_draw, bind. specialize (Hnull st).
    destruct (MakeFromData [] st) as [pic st']. cbn [fst] in Hnull. subst pic.
    reflexivity. }
  destruct Hr as [-> | ->]; [exists (-1) | exists 0];
    (split; [auto|]);
    try change (clamp 8 []) with (@nil byte);
    cbn [snd app length skipn len];
    change (le_combine (le_split 8 0)) with 0;
    destruct fuel; cbn [recv_loop Z.ltb Z.compare ret];
    change (Buf.load _ 0 0) with (@nil byte); cbn [buf kst trace];
    rewrite Hfd; reflexivity.
Qed.

(** X13.  When the size has come and the picture is not empty, but the
    first [read] for the picture fails or finds the pipe closed, [gpu] is
    over at once: status 1 through [err] on failure, a plain [return] at
    end of stream.  Nothing is replayed and no descriptor is closed: the
    two [read] calls are all [gpu] did. *)
Theorem picture_cut_short_ends_gpu fuel (s : proc K) d k1 r k2 :
  k_read kernel (kst s) readFd 8 = (Some d, k1) ->
  len d = 8 -> 0 < le_combine d ->
  k_read kernel k1 readFd kPicBufferSize = (r, k2) ->
  r = None \/ r = Some [] ->
  let (st, s') := gpu kernel readFd writeFd MakeFromData replay fBuffer (S fuel) s in
  st = match r with None => GpuExit 1 | Some _ => GpuEarly end
  /\ kst s' = k2
  /\ trace s' = trace s ++ [EvRead readFd 8 8;
                            EvRead readFd kPicBufferSize
                              (match r with None => -1 | Some _ => 0 end)].
Proof.
  intros Hhdr Hd Hpos Hpic Hr. rewrite gpu_steps. unfold sys_read_into.
  rewrite Hhdr. rewrite (clamp_fits 8 d) by lia. cbn [snd].
  assert (Hskip : skipn (length d) (le_split 8 0) = []).
  { apply skipn_all2. rewrite length_le_split. unfold len in Hd. lia. }
  rewrite Hskip, app_nil_r, Hd.
  cbn [recv_loop]. destruct (Z.ltb_spec 0 (le_combine d)) as [_|]; [|lia].
  unfold bind, sys_read_at. cbn [kst buf trace].
  change (wrap64 (kPicBufferSize - 0)) with kPicBufferSize.
  rewrite Hpic.
  destruct Hr as [-> | ->].
  - cbn -[kPicBufferSize]. rewrite <- app_assoc. auto.
  - change (clamp kPicBufferSize []) with (@nil byte).
    cbn -[kPicBufferSize]. rewrite <- app_assoc. auto.
Qed.

End GpuFacts.

Section GpuOverTrickle.
Variables readFd writeFd : Z.
Context {Picture : Type}.
Variable MakeFromData : list byte -> M (list byte) (option Picture).
Variable replay : Picture -> list byte -> M (list byte) bool.
Variable fBuffer : Buf.t.

(** Over a pipe that holds the size and the bytes of a picture and gives
    at most [m] bytes per [read], [gpu] calls [final_draw] for the bytes of
    the picture and, when it returns, closes. *)
Lemma gpu_over_trickle m fuel pic (s : proc (list byte)) :
  8 <= m -> len pic <= kPicBufferSize ->
  kst s = le_split 8 (len pic) ++ pic ->
  (length pic <= fuel)%nat ->
  exists reads, Forall (fun e => is_read e = true) reads /\
  gpu (trickle m) readFd writeFd MakeFromData replay fBuffer fuel s
  = let (back, s3) :=
      final_draw MakeFromData replay pic (Build_proc fBuffer [] (trace s ++ reads)) in
    if back then
      (GpuDone,
       Build_proc (buf s3) (kst s3) (trace s3 ++ [EvClose writeFd; EvClose readFd]))
    else (GpuFault, s3).
Proof.
  intros Hm Hcap Hq Hfuel.
  assert (Hl8 : len (le_split 8 (len pic)) = 8)
    by (unfold len; rewrite length_le_split; reflexivity).
  assert (Hsize : le_combine (le_split 8 (len pic)) = len pic).
  { rewrite le_combine_split. apply Z.mod_small.
    rewrite kPicBufferSize_value in Hcap. unfold len in *.
    change (2 ^ (Z.of_nat 8 * 8)) with 18446744073709551616. lia. }
  destruct (recv_loop_trickle readFd pic m fuel 0
              (Build_proc (buf s) pic (trace s ++ [EvRead readFd 8 8])))
    as (b' & tr & Heq & Hall & Hb'); cbn [buf kst trace];
    try (unfold len in *; lia); try reflexivity.
  exists (EvRead readFd 8 8 :: tr). split; [constructor; [reflexivity | assumption]|].
  rewrite gpu_steps. unfold sys_read_into. cbn [trickle k_read]. rewrite Hq.
  rewrite (Z.min_r m 8) by lia.
  rewrite (clamp_app 8 _ pic Hl8).
  rewrite (clamp_fits 8 (le_split 8 (len pic))) by lia.
  rewrite Hl8. cbn [snd].
  assert (Hskip1 : skipn (length (le_split 8 (len pic))) (le_split 8 (len pic) ++ pic) = pic).
  { rewrite skipn_app, skipn_all, Nat.sub_diag. reflexivity. }
  assert (Hskip2 : skipn (length (le_split 8 (len pic))) (le_split 8 0) = []).
  { apply skipn_all2. rewrite !length_le_split. lia. }
  rewrite Hskip1, Hskip2, app_nil_r, Hsize, Heq. cbn [buf kst trace].
  rewrite (load_of_list b' 0 pic).
  - rewrite <- app_assoc. reflexivity.
  - intros k Hk. rewrite Hb' by (unfold len; lia). f_equal. lia.
Qed.

(** X14.  The picture is received whole however the kernel cuts it.  Over
    a pipe that holds the size and the bytes of a picture that fits the
    buffer, and gives at most [m] bytes per [read] (enough for the size in
    one piece), [gpu] calls [final_draw] for exactly the bytes that were
    sent, with the pipe drained and after nothing but [read] calls; when
    [final_draw] returns, [gpu] closes the writing end and the reading
    end, in that order, and when it does not, nothing more is done. *)
Theorem picture_is_received_whole m fuel pic (s : proc (list byte)) :
  8 <= m -> len pic <= kPicBufferSize ->
  kst s = le_split 8 (len pic) ++ pic ->
  (length pic <= fuel)%nat ->
  exists reads, Forall (fun e => is_read e = true) reads /\
  gpu (trickle m) readFd writeFd MakeFromData replay fBuffer fuel s
  = let (back, s3) :=
      final_draw MakeFromData replay pic (Build_proc fBuffer [] (trace s ++ reads)) in
    if back then
      (GpuDone,
       Build_proc (buf s3) (kst s3) (trace s3 ++ [EvClose writeFd; EvClose readFd]))
    else (GpuFault, s3).
Proof.
  intros Hm Hcap Hq Hfuel.
  destruct (gpu_over_trickle m fuel pic s Hm Hcap Hq Hfuel) as (reads & Hall & Heq).
  exists reads. split; assumption.
Qed.

End GpuOverTrickle.

(** ** The picture from one role to the other *)

Section PictureThrough.
Context `{ABI}.
Variables (debug : bool) (rc : Provider) (glyphBuffer : Z).
(** the renderer's descriptors, then those of [gpu] *)
Variables readFd writeFd gpuReadFd gpuWriteFd : Z.
Context {Picture : Type}.
Variable MakeFromData : list byte -> M (list byte) (option Picture).
Variable replay : Picture -> list byte -> M (list byte) bool.
Variable fBuffer : Buf.t.

(** X15.  The picture [gpu] replays is the picture [renderer] serialized.
    [renderer] writes into an empty pipe that takes at most [n] bytes per
    [write]; [gpu] then reads what the pipe holds, at most [m] bytes per
    [read].  For a picture that fits [picBuffer], the bytes handed to
    [final_draw] are the renderer's [picBuffer], whatever [n] and [m] are
    (from eight on), and nothing is left in the pipe; [gpu] closes its
    descriptors when [final_draw] returns. *)
Theorem picture_goes_through n m fuel pic (s g : proc (list byte)) :
  8 <= n -> 8 <= m -> len pic <= kPicBufferSize ->
  kst s = [] -> (length pic < fuel)%nat ->
  let (st, s') := renderer (slow_pipe n) debug rc glyphBuffer readFd writeFd fuel pic s in
  st = Returned 0 /\
  exists reads, Forall (fun e => is_read e = true) reads /\
    gpu (trickle m) gpuReadFd gpuWriteFd MakeFromData replay fBuffer fuel
      (Build_proc (buf g) (kst s') (trace g))
    = let (back, s3) :=
        final_draw MakeFromData replay pic (Build_proc fBuffer [] (trace g ++ reads)) in
      if back then
        (GpuDone,
         Build_proc (buf s3) (kst s3)
           (trace s3 ++ [EvClose gpuWriteFd; EvClose gpuReadFd]))
      else (GpuFault, s3).
Proof.
  intros Hn Hm Hcap Hs Hfuel.
  destruct (renderer_over_slow_pipe debug rc glyphBuffer readFd writeFd n fuel pic s
              Hn Hfuel) as (b' & writes & _ & ->).
  split; [reflexivity|]. cbn [kst]. rewrite Hs. cbn [app].
  apply (gpu_over_trickle gpuReadFd gpuWriteFd MakeFromData replay fBuffer m fuel pic
           (Build_proc (buf g) (le_split 8 (len pic) ++ pic) (trace g)));
    [assumption | assumption | reflexivity | lia].
Qed.

End PictureThrough.

(** ** The rest of the tool, run on the sample target *)

Section MoreRuns.
#[local] Existing Instance Sample.abi.

Lemma glyph_metrics_round_trip_run :
  quiet (client Buf.zero Buf.zero)
  /\ len Sample.descriptor = sizeof_Descriptor
  /\ 0 <= 7 < 2 ^ 32
  /\ len Sample.glyph_A = sizeof_SkGlyph
  /\ let (filled, s') :=
       generateMetrics (gpu_end true Sample.provider 4096 5 6) 3 4 7 Sample.descriptor
         Sample.glyph_A (client Buf.zero Buf.zero) in
     filled = getMetrics (Sample.provider Sample.descriptor 7) Sample.glyph_A
     /\ quiet s'.
Proof.
  split; [reflexivity|]. split; [reflexivity|]. split; [lia|]. split; [reflexivity|].
  apply (glyph_metrics_round_trip true Sample.provider 4096 5 6 3 4
           (client Buf.zero Buf.zero) 7 Sample.descriptor Sample.glyph_A);
    [reflexivity | reflexivity | lia | reflexivity].
Defined.

Lemma glyph_path_round_trip_run :
  quiet (client Buf.zero Buf.zero)
  /\ len Sample.descriptor = sizeof_Descriptor
  /\ 0 <= 7 < 2 ^ 32
  /\ 0 <= 65 < 2 ^ 16
  /\ sizeof_Op + len (getPath (Sample.provider Sample.descriptor 7) 65) <= pipe_capacity
  /\ let (path, s') :=
       generatePath (gpu_end true Sample.provider 4096 5 6) 3 4 7 Sample.descriptor
         65 (client Buf.zero Buf.zero) in
     path = getPath (Sample.provider Sample.descriptor 7) 65
     /\ Op.pathSize (buf s') = len path
     /\ quiet s'.
Proof.
  assert (Hfit : sizeof_Op + len (getPath (Sample.provider Sample.descriptor 7) 65)
                 <= pipe_capacity) by (vm_compute; discriminate).
  split; [reflexivity|]. split; [reflexivity|]. split; [lia|]. split; [lia|].
  split; [exact Hfit|].
  apply (glyph_path_round_trip true Sample.provider 4096 5 6 3 4
           (client Buf.zero Buf.zero) 7 Sample.descriptor 65);
    [reflexivity | reflexivity | lia | lia | exact Hfit].
Defined.

Lemma glyph_image_round_trip_run :
  quiet (client Buf.zero Buf.zero)
  /\ len Sample.descriptor = sizeof_Descriptor
  /\ 0 <= 7 < 2 ^ 32
  /\ len Sample.glyph_A = sizeof_SkGlyph
  /\ len (getImage (Sample.provider Sample.descriptor 7)
            (set_fImage (4096 + sizeof_Op) Sample.glyph_A))
     = imageSize Sample.glyph_A
  /\ sizeof_Op + imageSize Sample.glyph_A <= pipe_capacity
  /\ let (image, s') :=
       generateImage (gpu_end true Sample.provider 4096 5 6) 3 4 7 Sample.descriptor
         Sample.glyph_A (client Buf.zero Buf.zero) in
     image = getImage (Sample.provider Sample.descriptor 7)
               (set_fImage (4096 + sizeof_Op) Sample.glyph_A)
     /\ quiet s'.
Proof.
  assert (Hfit : sizeof_Op + imageSize Sample.glyph_A <= pipe_capacity)
    by (vm_compute; discriminate).
  split; [reflexivity|]. split; [reflexivity|]. split; [lia|]. split; [reflexivity|].
  split; [reflexivity|]. split; [exact Hfit|].
  apply (glyph_image_round_trip true Sample.provider 4096 5 6 3 4
           (client Buf.zero Buf.zero) 7 Sample.descriptor Sample.glyph_A);
    [reflexivity | reflexivity | lia | reflexivity | reflexivity | exact Hfit].
Defined.

Lemma paths_come_back_in_order_run :
  quiet (client Buf.zero Buf.zero)
  /\ len Sample.descriptor = sizeof_Descriptor
  /\ 0 <= 7 < 2 ^ 32 /\ 0 <= 65 < 2 ^ 16
  /\ 0 <= 9 < 2 ^ 32 /\ 0 <= 66 < 2 ^ 16
  /\ sizeof_Op + len (getPath (Sample.provider Sample.descriptor 7) 65) <= pipe_capacity
  /\ sizeof_Op + len (getPath (Sample.provider Sample.descriptor 9) 66) <= pipe_capacity
  /\ let (path1, s1) :=
       generatePath (gpu_end true Sample.provider 4096 5 6) 3 4 7 Sample.descriptor
         65 (client Buf.zero Buf.zero) in
     let (path2, s2) :=
       generatePath (gpu_end true Sample.provider 4096 5 6) 3 4 9 Sample.descriptor
         66 s1 in
     path1 = getPath (Sample.provider Sample.descriptor 7) 65
     /\ path2 = getPath (Sample.provider Sample.descriptor 9) 66
     /\ quiet s2.
Proof.
  assert (Hfit1 : sizeof_Op + len (getPath (Sample.provider Sample.descriptor 7) 65)
                  <= pipe_capacity) by (vm_compute; discriminate).
  assert (Hfit2 : sizeof_Op + len (getPath (Sample.provider Sample.descriptor 9) 66)
                  <= pipe_capacity) by (vm_compute; discriminate).
  split; [reflexivity|]. split; [reflexivity|]. split; [lia|]. split; [lia|].
  split; [lia|]. split; [lia|]. split; [exact Hfit1|]. split; [exact Hfit2|].
  apply (paths_come_back_in_order true Sample.provider 4096 5 6 3 4
           (client Buf.zero Buf.zero) 7 Sample.descriptor 65 9 Sample.descriptor 66);
    [reflexivity | reflexivity | lia | lia | reflexivity | lia | lia
    | exact Hfit1 | exact Hfit2].
Defined.

Lemma metrics_then_image_run :
  quiet (client Buf.zero Buf.zero)
  /\ len Sample.descriptor = sizeof_Descriptor
  /\ 0 <= 7 < 2 ^ 32
  /\ len Sample.glyph_A = sizeof_SkGlyph
  /\ len (getImage (Sample.provider Sample.descriptor 7)
            (set_fImage (4096 + sizeof_Op)
               (getMetrics (Sample.provider Sample.descriptor 7) Sample.glyph_A)))
     = imageSize (getMetrics (Sample.provider Sample.descriptor 7) Sample.glyph_A)
  /\ sizeof_Op + imageSize (getMetrics (Sample.provider Sample.descriptor 7) Sample.glyph_A)
     <= pipe_capacity
  /\ let (filled, s1) :=
       generateMetrics (gpu_end true Sample.provider 4096 5 6) 3 4 7 Sample.descriptor
         Sample.glyph_A (client Buf.zero Buf.zero) in
     let (image, s2) :=
       generateImage (gpu_end true Sample.provider 4096 5 6) 3 4 7 Sample.descriptor
         filled s1 in
     filled = getMetrics (Sample.provider Sample.descriptor 7) Sample.glyph_A
     /\ image = getImage (Sample.provider Sample.descriptor 7)
                  (set_fImage (4096 + sizeof_Op) filled)
     /\ len image = imageSize filled
     /\ quiet s2.
Proof.
  assert (Hfit : sizeof_Op
                 + imageSize (getMetrics (Sample.provider Sample.descriptor 7) Sample.glyph_A)
                 <= pipe_capacity) by (vm_compute; discriminate).
  split; [reflexivity|]. split; [reflexivity|]. split; [lia|]. split; [reflexivity|].
  split; [reflexivity|]. split; [exact Hfit|].
  apply (metrics_then_image true Sample.provider 4096 5 6 3 4
           (client Buf.zero Buf.zero) 7 Sample.descriptor Sample.glyph_A);
    [reflexivity | reflexivity | lia | reflexivity | reflexivity | exact Hfit].
Defined.

Lemma failed_read_returns_old_bytes_run :
  len Sample.descriptor = sizeof_Descriptor
  /\ len Sample.glyph_A = sizeof_SkGlyph
  /\ (forall k, fst (k_read failing_reads k 3 kBufferSize) = None)
  /\ fst (generateFontMetrics failing_reads 3 4 7 Sample.descriptor
            (Build_proc Buf.zero tt []))
     = Op.fontMetrics Buf.zero
  /\ fst (generateMetrics failing_reads 3 4 7 Sample.descriptor Sample.glyph_A
            (Build_proc Buf.zero tt []))
     = Sample.glyph_A
  /\ fst (generateImage failing_reads 3 4 7 Sample.descriptor Sample.glyph_A
            (Build_proc Buf.zero tt []))
     = Buf.load Buf.zero sizeof_Op (imageSize Sample.glyph_A)
  /\ fst (generatePath failing_reads 3 4 7 Sample.descriptor 65
            (Build_proc Buf.zero tt []))
     = Buf.load Buf.zero sizeof_Op (Op.pathSize Buf.zero).
Proof.
  split; [reflexivity|]. split; [reflexivity|]. split; [reflexivity|].
  apply (failed_read_returns_old_bytes failing_reads 3 4 (Build_proc Buf.zero tt [])
           7 Sample.descriptor Sample.glyph_A 65);
    reflexivity.
Defined.

Lemma return_1_follows_a_failed_write_run :
  fst (renderer dead_pipe true Sample.provider 4096 5 6 2 [Byte.x01; Byte.x02]
         (Build_proc Buf.zero tt []))
  = Returned 1
  /\ exists writes count result,
       trace (snd (renderer dead_pipe true Sample.provider 4096 5 6 2
                     [Byte.x01; Byte.x02] (Build_proc Buf.zero tt [])))
       = [] ++ writes ++ [EvWrite 6 count result]
       /\ Forall (fun e => is_write e = true) writes
       /\ result <= 0.
Proof.
  split; [reflexivity|].
  apply (return_1_follows_a_failed_write dead_pipe true Sample.provider 4096 5 6 2
           [Byte.x01; Byte.x02] (Build_proc Buf.zero tt [])).
  reflexivity.
Defined.

Lemma send_loop_ends_run :
  (Z.to_nat (len [Byte.x01; Byte.x02; Byte.x03] - 0) <= 3)%nat
  /\ (fst (send_loop (trickle 1) 6 3 [Byte.x01; Byte.x02; Byte.x03] 0
             (Build_proc Buf.zero [] []))
      = SendDone
      \/ fst (send_loop (trickle 1) 6 3 [Byte.x01; Byte.x02; Byte.x03] 0
                (Build_proc Buf.zero [] []))
         = SendReturn1).
Proof.
  assert (Hfuel : (Z.to_nat (len [Byte.x01; Byte.x02; Byte.x03] - 0) <= 3)%nat)
    by (vm_compute; lia).
  split; [exact Hfuel|].
  apply (send_loop_ends (trickle 1) 6 [Byte.x01; Byte.x02; Byte.x03] 3 0
           (Build_proc Buf.zero [] []) Hfuel).
Defined.

Lemma picture_is_sent_whole_run :
  8 <= 8
  /\ (length [Byte.x01; Byte.x02; Byte.x03] < 4)%nat
  /\ let (st, s') :=
       renderer (slow_pipe 8) true Sample.provider 4096 5 6 4
         [Byte.x01; Byte.x02; Byte.x03] (Build_proc Buf.zero [] []) in
     st = Returned 0
     /\ kst s' = [] ++ le_split 8 (len [Byte.x01; Byte.x02; Byte.x03])
                 ++ [Byte.x01; Byte.x02; Byte.x03]
     /\ exists writes,
          Forall (fun e => is_write e = true) writes
          /\ trace s' = [] ++ EvWrite 6 8 8 :: writes
                            ++ [EvRead 5 sizeof_Op 0; EvClose 5; EvClose 6].
Proof.
  split; [lia|]. split; [cbn; lia|].
  apply (picture_is_sent_whole true Sample.provider 4096 5 6 8 4
           [Byte.x01; Byte.x02; Byte.x03] (Build_proc Buf.zero [] []));
    [lia | cbn; lia].
Defined.

Lemma picture_stays_in_picBuffer_run :
  0 <= 0 <= kPicBufferSize
  /\ let (e, s') :=
       recv_loop (trickle 2) 5 3 3 0
         (Build_proc Buf.zero [Byte.x01; Byte.x02; Byte.x03] []) in
     (forall i, i < 0 \/ kPicBufferSize <= i -> buf s' i = Buf.zero i)
     /\ (kPicBufferSize < 3 -> e <> RecvDone).
Proof.
  assert (Hw : 0 <= 0 <= kPicBufferSize) by (vm_compute; split; discriminate).
  split; [exact Hw|].
  apply (picture_stays_in_picBuffer (trickle 2) 5 3 3 0
           (Build_proc Buf.zero [Byte.x01; Byte.x02; Byte.x03] []) Hw).
Defined.

Lemma picture_is_received_whole_run :
  8 <= 8
  /\ len [Byte.x01; Byte.x02; Byte.x03] <= kPicBufferSize
  /\ le_split 8 3 ++ [Byte.x01; Byte.x02; Byte.x03]
     = le_split 8 (len [Byte.x01; Byte.x02; Byte.x03]) ++ [Byte.x01; Byte.x02; Byte.x03]
  /\ (length [Byte.x01; Byte.x02; Byte.x03] <= 3)%nat
  /\ exists reads, Forall (fun e => is_read e = true) reads /\
       gpu (trickle 8) 5 6 Sample.MakeFromData Sample.replay Buf.zero 3
         (Build_proc Buf.zero (le_split 8 3 ++ [Byte.x01; Byte.x02; Byte.x03]) [])
       = let (back, s3) :=
           final_draw Sample.MakeFromData Sample.replay [Byte.x01; Byte.x02; Byte.x03]
             (Build_proc Buf.zero [] ([] ++ reads)) in
         if back then
           (GpuDone,
            Build_proc (buf s3) (kst s3) (trace s3 ++ [EvClose 6; EvClose 5]))
         else (GpuFault, s3).
Proof.
  assert (Hcap : len [Byte.x01; Byte.x02; Byte.x03] <= kPicBufferSize)
    by (vm_compute; discriminate).
  split; [lia|]. split; [exact Hcap|]. split; [reflexivity|]. split; [cbn; lia|].
  apply (picture_is_received_whole 5 6 Sample.MakeFromData Sample.replay Buf.zero 8 3
           [Byte.x01; Byte.x02; Byte.x03]
           (Build_proc Buf.zero (le_split 8 3 ++ [Byte.x01; Byte.x02; Byte.x03]) []));
    [lia | exact Hcap | reflexivity | cbn; lia].
Defined.

(** A picture of three bytes received and replayed: [gpu] closes and
    returns. *)
Example picture_of_three_bytes_is_drawn :
  gpu (trickle 8) 5 6 Sample.MakeFromData Sample.replay Buf.zero 3
    (Build_proc Buf.zero (le_split 8 3 ++ [Byte.x01; Byte.x02; Byte.x03]) [])
  = (GpuDone,
     Build_proc Buf.zero []
       [EvRead 5 8 8; EvRead 5 kPicBufferSize 3; EvClose 6; EvClose 5]).
Proof. vm_compute. reflexivity. Qed.

Lemma missing_size_ends_in_final_draw_run :
  (fst (k_read failing_reads tt 5 8) = None
   \/ fst (k_read failing_reads tt 5 8) = Some [])
  /\ (forall st : proc unit, fst (Sample.MakeFromData [] st) = None)
  /\ exists result, (result = -1 \/ result = 0) /\
       gpu failing_reads 5 6 Sample.MakeFromData Sample.replay Buf.zero 1
         (Build_proc Buf.zero tt [])
       = (GpuFault,
          snd (Sample.MakeFromData []
                 (Build_proc Buf.zero (snd (k_read failing_reads tt 5 8))
                    ([] ++ [EvRead 5 8 result])))).
Proof.
  split; [left; reflexivity|]. split; [reflexivity|].
  apply (missing_size_ends_in_final_draw failing_reads 5 6 Sample.MakeFromData
           Sample.replay Buf.zero 1 (Build_proc Buf.zero tt [])).
  - left. reflexivity.
  - reflexivity.
Defined.

Lemma picture_cut_short_ends_gpu_run :
  k_read (trickle 8) (le_split 8 3) 5 8 = (Some (le_split 8 3), [])
  /\ len (le_split 8 3) = 8
  /\ 0 < le_combine (le_split 8 3)
  /\ k_read (trickle 8) [] 5 kPicBufferSize = (Some [], [])
  /\ let (st, s') :=
       gpu (trickle 8) 5 6 Sample.MakeFromData Sample.replay Buf.zero 1
         (Build_proc Buf.zero (le_split 8 3) []) in
     st = GpuEarly
     /\ kst s' = []
     /\ trace s' = [] ++ [EvRead 5 8 8; EvRead 5 kPicBufferSize 0].
Proof.
  split; [reflexivity|]. split; [reflexivity|]. split; [reflexivity|].
  split; [reflexivity|].
  apply (picture_cut_short_ends_gpu (trickle 8) 5 6 Sample.MakeFromData Sample.replay
           Buf.zero 0
           (Build_proc Buf.zero (le_split 8 3) []) (le_split 8 3) [] (Some []) []);
    [reflexivity | reflexivity | reflexivity | reflexivity | right; reflexivity].
Defined.

Lemma picture_goes_through_run :
  8 <= 8 /\ 8 <= 9
  /\ len [Byte.x01; Byte.x02; Byte.x03] <= kPicBufferSize
  /\ kst (Build_proc Buf.zero (@nil byte) []) = []
  /\ (length [Byte.x01; Byte.x02; Byte.x03] < 4)%nat
  /\ let (st, s') :=
       renderer (slow_pipe 8) true Sample.provider 4096 5 6 4
         [Byte.x01; Byte.x02; Byte.x03] (Build_proc Buf.zero [] []) in
     st = Returned 0 /\
     exists reads, Forall (fun e => is_read e = true) reads /\
       gpu (trickle 9) 7 8 Sample.MakeFromData Sample.replay Buf.zero 4
         (Build_proc Buf.zero (kst s') [])
       = let (back, s3) :=
           final_draw Sample.MakeFromData Sample.replay [Byte.x01; Byte.x02; Byte.x03]
             (Build_proc Buf.zero [] ([] ++ reads)) in
         if back then
           (GpuDone,
            Build_proc (buf s3) (kst s3) (trace s3 ++ [EvClose 8; EvClose 7]))
         else (GpuFault, s3).
Proof.
  assert (Hcap : len [Byte.x01; Byte.x02; Byte.x03] <= kPicBufferSize)
    by (vm_compute; discriminate).
  split; [lia|]. split; [lia|]. split; [exact Hcap|]. split; [reflexivity|].
  split; [cbn; lia|].
  apply (picture_goes_through true Sample.provider 4096 5 6 7 8 Sample.MakeFromData
           Sample.replay Buf.zero 8 9 4 [Byte.x01; Byte.x02; Byte.x03]
           (Build_proc Buf.zero [] []) (Build_proc Buf.zero [] []));
    [lia | lia | exact Hcap | reflexivity | cbn; lia].
Defined.

End MoreRuns.
